(** * Translatiner: the file queue, the caption index, the translator and
      the main-window orchestration, embedded from the Python sources.

    Conventions of the embedding.
    - Python [int] is [Z]; list positions coming out of a guard
      [0 <= i < len(l)] are converted with [Z.to_nat].
    - Python [str] is [string]; paths and texts are compared for equality
      only, apart from the extension test of the queue. Whether a text
      encodes to UTF-8 is asked of the runtime.
    - Python [float] times are compared only ([<=], [<]); they are modelled
      as rationals [Q]: every finite double is a rational and the two
      orders agree on them.
    - A method that mutates [self] takes the object and returns it next to
      its Python return value.
    - A call that may raise returns a [result]. *)

From Stdlib Require Import ZArith QArith Lia Ascii String.
From stdpp Require Import base list gmap strings pretty.

Local Open Scope string_scope.
Local Open Scope Z_scope.

(** ** Python runtime: exceptions and sequence primitives *)

(** The exceptions the modelled code meets; [str(e)] is the message. *)
Inductive exn : Type :=
| IndexError
| TypeError
| KeyError (key : string)
| ValueError (msg : string)
| UnicodeEncodeError (msg : string)
| AudioProcessorError (msg : string)
| SpeechRecognizerError (msg : string)
| TranslatorError (msg : string)
| OtherError (msg : string).

Inductive result (A : Type) : Type :=
| Ok (a : A)
| Raise (e : exn).

Arguments Ok {A} a.
Arguments Raise {A} e.

(** [len(l)] *)
Definition len {A : Type} (l : list A) : Z := Z.of_nat (length l).

(** [l[i]], negative positions counted from the end, [IndexError] outside. *)
Definition py_getitem {A : Type} (l : list A) (i : Z) : result A :=
  let j := if i <? 0 then i + len l else i in
  if j <? 0 then Raise IndexError
  else match l !! Z.to_nat j with
       | Some x => Ok x
       | None => Raise IndexError
       end.

(** [l[a:b]] for [0 <= a]. *)
Definition py_slice {A : Type} (l : list A) (a b : Z) : list A :=
  take (Z.to_nat (b - a)) (drop (Z.to_nat a) l).

(** [range(start, stop, step)] for [0 < step], unrolled at most [fuel]
    times; [py_range] gives it the fuel it needs. *)
Fixpoint range_fuel (fuel : nat) (start stop step : Z) : list Z :=
  match fuel with
  | O => []
  | S fuel' =>
      if start <? stop
      then start :: range_fuel fuel' (start + step) stop step
      else []
  end.

Definition py_range (start stop step : Z) : list Z :=
  range_fuel (Z.to_nat (stop - start)) start stop step.

(** The truth value of an optional string: [None] and the empty string are
    false. *)
Definition truthy (o : option string) : bool :=
  match o with
  | Some (String _ _) => true
  | _ => false
  end.

(** [l.insert(i, x)] for [0 <= i]: positions past the end append. *)
Definition py_insert {A : Type} (i : nat) (x : A) (l : list A) : list A :=
  (take i l ++ x :: drop i l)%list.

(** [s.rfind(c)] for a one-character [c]: the last position of [c] in [s],
    [-1] when it does not occur. *)
Fixpoint rfind_from (c : ascii) (s : string) (i last : Z) : Z :=
  match s with
  | EmptyString => last
  | String a s' => rfind_from c s' (i + 1) (if Ascii.eqb a c then i else last)
  end.

Definition rfind (c : ascii) (s : string) : Z := rfind_from c s 0 (-1).

(** [s[i:]] and [s[:i]] for [0 <= i]. *)
Fixpoint str_drop (n : nat) (s : string) : string :=
  match n, s with
  | O, _ => s
  | S n', String _ s' => str_drop n' s'
  | S _, EmptyString => EmptyString
  end.

Fixpoint str_take (n : nat) (s : string) : string :=
  match n, s with
  | O, _ => EmptyString
  | S n', String a s' => String a (str_take n' s')
  | S _, EmptyString => EmptyString
  end.

(** [s.lower()] on the ASCII letters. A non-ASCII letter never lowers to
    one of the characters of [.wav] or [.mp3], so the extension test below
    is not affected by the restriction. *)
Definition lower_ascii (a : ascii) : ascii :=
  let n := N_of_ascii a in
  if ((65 <=? n) && (n <=? 90))%N then ascii_of_N (n + 32) else a.

Fixpoint lower (s : string) : string :=
  match s with
  | EmptyString => EmptyString
  | String a s' => String (lower_ascii a) (lower s')
  end.

(** ** [os.path] (posixpath) *)
Module os_path.

(** The scan of [genericpath._splitext] over [p[sepIndex+1:dotIndex]]:
    true when a character other than the dot is met. *)
Fixpoint has_non_dot (s : string) : bool :=
  match s with
  | EmptyString => false
  | String a s' => if Ascii.eqb a "." then has_non_dot s' else true
  end.

Definition splitext (p : string) : string * string :=
  let sepIndex := rfind "/" p in
  let dotIndex := rfind "." p in
  if sepIndex <? dotIndex then
    let filenameIndex := sepIndex + 1 in
    if has_non_dot (str_take (Z.to_nat (dotIndex - filenameIndex))
                             (str_drop (Z.to_nat filenameIndex) p))
    then (str_take (Z.to_nat dotIndex) p, str_drop (Z.to_nat dotIndex) p)
    else (p, EmptyString)
  else (p, EmptyString).

Definition basename (p : string) : string :=
  let i := rfind "/" p + 1 in
  str_drop (Z.to_nat i) p.

End os_path.

(** ** models/data_models.py *)

Inductive FileState : Type :=
| PENDING
| PROCESSING
| READY
| PLAYING
| COMPLETED.

#[global] Instance FileState_eq_dec : EqDecision FileState.
Proof. solve_decision. Defined.

(** The value of each member of the enumeration. *)
Definition FileState_value (s : FileState) : string :=
  match s with
  | PENDING => "pending"
  | PROCESSING => "processing"
  | READY => "ready"
  | PLAYING => "playing"
  | COMPLETED => "completed"
  end.

(** [list(FileState)]: the members in definition order. *)
Definition FileState_members : list FileState :=
  [PENDING; PROCESSING; READY; PLAYING; COMPLETED].

(** [FileState(v)]: look a member up by value ([None] is Python's
    [ValueError]). *)
Definition FileState_of_value (v : string) : option FileState :=
  find (fun s => bool_decide (FileState_value s = v)) FileState_members.

Record TranscriptSegment : Type := mkTranscriptSegment {
  ts_start_time : Q;
  ts_end_time : Q;
  ts_text : string;
  ts_language : string
}.

Record TranslationSegment : Type := mkTranslationSegment {
  start_time : Q;
  end_time : Q;
  original_text : string;
  translated_text : string;
  source_language : string;
  target_language : string
}.

(** [PlaylistItem.subtitle_manager] is never assigned by the sources and
    stays [None]; it is left out. *)
Record PlaylistItem : Type := mkPlaylistItem {
  file_path : string;
  file_name : string;
  state : FileState
}.

(** [item.state = s] *)
Definition set_state (s : FileState) (item : PlaylistItem) : PlaylistItem :=
  {| file_path := file_path item; file_name := file_name item; state := s |}.

(** ** models/file_queue.py *)
Module FileQueue.

Definition MAX_FILES : Z := 5.
Definition SUPPORTED_FORMATS : list string := [".wav"; ".mp3"].

Record t : Type := mk {
  _items : list PlaylistItem;
  _current_index : Z
}.

(** [__init__] *)
Definition new : t := {| _items := []; _current_index := -1 |}.

Definition items (q : t) : list PlaylistItem := _items q.
Definition count (q : t) : Z := len (_items q).
Definition is_full (q : t) : bool := MAX_FILES <=? len (_items q).
Definition current_index (q : t) : Z := _current_index q.

Definition in_range (q : t) (index : Z) : bool :=
  (0 <=? index) && (index <? len (_items q)).

Definition current_file (q : t) : option string :=
  if in_range q (_current_index q)
  then file_path <$> _items q !! Z.to_nat (_current_index q)
  else None.

Definition has_next (q : t) : bool :=
  _current_index q <? len (_items q) - 1.

Definition _is_valid_format (path : string) : bool :=
  let ext := snd (os_path.splitext path) in
  bool_decide (lower ext ∈ SUPPORTED_FORMATS).

(** The loop of [add_files]: [break] on a full queue, [continue] on an
    unsupported format. *)
Fixpoint add_files_loop (file_paths : list string) (q : t) (added : Z)
  : Z * t :=
  match file_paths with
  | [] => (added, q)
  | path :: rest =>
      if is_full q then (added, q)
      else if negb (_is_valid_format path) then add_files_loop rest q added
      else
        let file_name := os_path.basename path in
        let item := {| file_path := path; file_name := file_name;
                       state := PENDING |} in
        add_files_loop rest
          {| _items := (_items q ++ [item])%list;
             _current_index := _current_index q |}
          (added + 1)
  end.

Definition add_files (q : t) (file_paths : list string) : Z * t :=
  add_files_loop file_paths q 0.

Definition remove_file (q : t) (index : Z) : bool * t :=
  if negb (in_range q index) then (false, q)
  else
    let items' := delete (Z.to_nat index) (_items q) in
    let ci := _current_index q in
    let ci' :=
      if len items' <=? ci then len items' - 1
      else if index <? ci then ci - 1
      else ci in
    (true, {| _items := items'; _current_index := ci' |}).

(** After the two range tests the item at [from_index] exists, so the
    [None] branch of the lookup is never taken. *)
Definition move_file (q : t) (from_index to_index : Z) : bool * t :=
  if negb (in_range q from_index) then (false, q)
  else if negb (in_range q to_index) then (false, q)
  else if from_index =? to_index then (true, q)
  else
    match _items q !! Z.to_nat from_index with
    | None => (false, q)
    | Some item =>
        let popped := delete (Z.to_nat from_index) (_items q) in
        let items' := py_insert (Z.to_nat to_index) item popped in
        let ci := _current_index q in
        let ci' :=
          if ci =? from_index then to_index
          else if (from_index <? ci) && (ci <=? to_index) then ci - 1
          else if (to_index <=? ci) && (ci <? from_index) then ci + 1
          else ci in
        (true, {| _items := items'; _current_index := ci' |})
    end.

(** The cursor is advanced before the item is read, so it stays advanced
    when the read raises. *)
Definition get_next_file (q : t) : result (option string) * t :=
  if has_next q then
    let q' := {| _items := _items q;
                 _current_index := _current_index q + 1 |} in
    match py_getitem (_items q') (_current_index q') with
    | Ok item => (Ok (Some (file_path item)), q')
    | Raise e => (Raise e, q')
    end
  else (Ok None, q).

Definition set_current_index (q : t) (index : Z) : bool * t :=
  if negb (in_range q index) then (false, q)
  else (true, {| _items := _items q; _current_index := index |}).

(** The [for i, item in enumerate(self._items)] loop of
    [set_file_state], started at position [i]. *)
Fixpoint demote_others (i index : Z) (l : list PlaylistItem)
  : list PlaylistItem :=
  match l with
  | [] => []
  | item :: rest =>
      (if negb (i =? index) && bool_decide (state item = PROCESSING)
       then set_state PENDING item
       else item) :: demote_others (i + 1) index rest
  end.

Definition set_file_state (q : t) (index : Z) (s : FileState) : bool * t :=
  if negb (in_range q index) then (false, q)
  else
    let items1 :=
      if bool_decide (s = PROCESSING)
      then demote_others 0 index (_items q)
      else _items q in
    (true, {| _items := alter (set_state s) (Z.to_nat index) items1;
              _current_index := _current_index q |}).

Definition clear (q : t) : t := {| _items := []; _current_index := -1 |}.

(** One call of the public interface, and a run of calls on a queue. *)
Inductive call : Type :=
| AddFiles (file_paths : list string)
| RemoveFile (index : Z)
| MoveFile (from_index to_index : Z)
| GetNextFile
| SetCurrentIndex (index : Z)
| SetFileState (index : Z) (s : FileState)
| Clear.

Definition step (q : t) (c : call) : t :=
  match c with
  | AddFiles ps => snd (add_files q ps)
  | RemoveFile i => snd (remove_file q i)
  | MoveFile i j => snd (move_file q i j)
  | GetNextFile => snd (get_next_file q)
  | SetCurrentIndex i => snd (set_current_index q i)
  | SetFileState i s => snd (set_file_state q i s)
  | Clear => clear q
  end.

Definition run (q : t) (cs : list call) : t := fold_left step cs q.

(** The number of items in state [PROCESSING]. *)
Definition processing_count (l : list PlaylistItem) : nat :=
  length (filter (fun item => state item = PROCESSING) l).

Arguments processing_count : simpl never.

(** The bounds of the queue: at most [MAX_FILES] items, the cursor at
    [-1] or on an item. *)
Definition bounded (q : t) : Prop :=
  len (_items q) <= MAX_FILES
  /\ -1 <= _current_index q <= len (_items q) - 1.

(** What [set_file_state(index, PROCESSING)] leaves at position [j] in
    place of [item]. *)
Definition after_processing (index : Z) (j : nat) (item : PlaylistItem)
  : PlaylistItem :=
  if decide (Z.of_nat j = index) then set_state PROCESSING item
  else if decide (state item = PROCESSING) then set_state PENDING item
  else item.

(** The cursor after a move, as it follows the item it was on. *)
Definition moved_index (from_index to_index ci : Z) : Z :=
  if decide (ci = from_index) then to_index
  else if decide (from_index < ci <= to_index) then ci - 1
  else if decide (to_index <= ci < from_index) then ci + 1
  else ci.

End FileQueue.

(** ** services/subtitle_manager.py *)
Module SubtitleManager.

(** [__init__]: the manager holds the segment list. *)
Definition t : Type := list TranslationSegment.

(** [a < b] on times. *)
Definition Qlt_bool (a b : Q) : bool := negb (Qle_bool b a).

(** [segment.start_time <= current_time < segment.end_time] *)
Definition covers (current_time : Q) (segment : TranslationSegment) : bool :=
  Qle_bool (start_time segment) current_time
  && Qlt_bool current_time (end_time segment).

(** The [for i, segment in enumerate(self._segments)] loop, started at
    position [i]: the first position whose segment covers the time. *)
Fixpoint scan (i : Z) (segments : list TranslationSegment) (current_time : Q)
  : option Z :=
  match segments with
  | [] => None
  | segment :: rest =>
      if covers current_time segment then Some i
      else scan (i + 1) rest current_time
  end.

Definition get_current_index (segments : t) (current_time : Q) : Z :=
  match segments with
  | [] => -1
  | first :: _ =>
      match scan 0 segments current_time with
      | Some i => i
      | None =>
          if Qlt_bool current_time (start_time first) then -1
          else if Qle_bool (end_time (List.last segments first)) current_time
               then -1
               else -1
      end
  end.

(** The expected shape of a segment list, not enforced by the manager:
    ordered by start time and non-overlapping, each segment ending no
    later than the next one starts. *)
Fixpoint ordered (segments : list TranslationSegment) : bool :=
  match segments with
  | a :: rest =>
      match rest with
      | b :: _ =>
          Qle_bool (start_time a) (start_time b)
          && Qle_bool (end_time a) (start_time b)
      | [] => true
      end && ordered rest
  | [] => true
  end.

(** Segment [i] is the caption at time [t]. *)
Definition active (segments : list TranslationSegment) (i : nat) (t : Q)
  : Prop :=
  exists seg : TranslationSegment,
    segments !! i = Some seg
    /\ (start_time seg <= t)%Q /\ (t < end_time seg)%Q.

Definition get_segment_by_index (segments : t) (index : Z)
  : option TranslationSegment :=
  if (index <? 0) || (len segments <=? index) then None
  else segments !! Z.to_nat index.

End SubtitleManager.

(** ** services/translator.py *)

(** What the translator takes from outside the repository.
    - [strip], [splitlines]: the string methods;
    - [int_of]: [int] on a run of digits, the number or the message of
      the [ValueError] it raises (CPython refuses a run of more than 4300
      digits);
    - [encode_error]: [json.dumps(payload, ensure_ascii=False)
      .encode("utf-8")] for the payload of a prompt, [None] when the
      payload encodes and the message of the [UnicodeEncodeError]
      otherwise (a prompt with a lone surrogate does not encode);
    - [findall_numbered]: [re.findall] with the numbered-item pattern and
      [re.DOTALL], the pairs (number, content) in match order;
      [match_numbered]: [re.match] with the one-line pattern, the two
      groups;
    - [urlopen]: one HTTP attempt of [_call_ollama]. It is given the
      prompts of the attempts made so far and the prompt; it answers the
      stripped [response] field, or the message of the exception raised
      inside the [try] block. *)
Record runtime : Type := mkRuntime {
  strip : string -> string;
  splitlines : string -> list string;
  int_of : string -> Z + string;
  encode_error : string -> option string;
  findall_numbered : string -> list (string * string);
  match_numbered : string -> option (string * string);
  urlopen : list string -> string -> string + string
}.

(** Code that calls out: the state is the list of prompts sent so far,
    oldest first. A raise stops the computation and keeps the state. *)
Definition M (A : Type) : Type := list string -> result A * list string.

Definition ret {A : Type} (a : A) : M A := fun w => (Ok a, w).

Definition raise {A : Type} (e : exn) : M A := fun w => (Raise e, w).

Definition bind {A B : Type} (m : M A) (k : A -> M B) : M B :=
  fun w =>
    match m w with
    | (Ok a, w') => k a w'
    | (Raise e, w') => (Raise e, w')
    end.

(** A [for] loop with an accumulator over a list of values. *)
Fixpoint for_each {A B : Type} (l : list A) (acc : B) (body : B -> A -> M B)
  : M B :=
  match l with
  | [] => ret acc
  | x :: rest => bind (body acc x) (fun acc' => for_each rest acc' body)
  end.

Module Translator.

Definition nl : string := String (ascii_of_nat 10) EmptyString.

Definition LANG_NAMES : gmap string string :=
  list_to_map [("ja", "日语"); ("en", "英语"); ("ko", "韩语"); ("zh", "中文")].

Definition BATCH_SIZE : Z := 10.

Definition should_translate (source_lang target_lang : string) : bool :=
  bool_decide (source_lang ≠ target_lang).

(** The segment of the same-language branch and of an item whose number
    the answer does not resolve. *)
Definition echo (source_lang target_lang : string) (s : TranscriptSegment)
  : TranslationSegment :=
  {| start_time := ts_start_time s;
     end_time := ts_end_time s;
     original_text := ts_text s;
     translated_text := ts_text s;
     source_language := source_lang;
     target_language := target_lang |}.

(** An output segment that keeps the times and the text of its input
    and carries the language pair. *)
Definition preserves (source_lang target_lang : string)
    (s : TranscriptSegment) (o : TranslationSegment) : Prop :=
  start_time o = ts_start_time s
  /\ end_time o = ts_end_time s
  /\ original_text o = ts_text s
  /\ source_language o = source_lang
  /\ target_language o = target_lang.

Section WithRuntime.

Variable rt : runtime.

(** The attempts of [_call_ollama] that are left. The sleeps between
    attempts have no effect on the result and are left out. *)
Fixpoint _call_ollama_loop (prompt : string) (max_retries : Z)
    (attempts : list Z) : M (option string) :=
  match attempts with
  | [] => ret None
  | attempt :: rest =>
      fun w =>
        match urlopen rt w prompt with
        | inl response => (Ok (Some response), (w ++ [prompt])%list)
        | inr e =>
            if attempt <? max_retries - 1
            then _call_ollama_loop prompt max_retries rest ((w ++ [prompt])%list)
            else (Raise (TranslatorError ("Ollama 调用失败: " +:+ e)),
                  (w ++ [prompt])%list)
        end
  end.

(** The payload is encoded before the loop and outside its [try]: a
    prompt that does not encode raises [UnicodeEncodeError] before any
    attempt, whatever [max_retries] is. *)
Definition _call_ollama (prompt : string) (max_retries : Z)
  : M (option string) :=
  fun w =>
    match encode_error rt prompt with
    | Some msg => (Raise (UnicodeEncodeError msg), w)
    | None =>
        _call_ollama_loop prompt max_retries (py_range 0 max_retries 1) w
    end.

(** The first loop of [_parse_numbered_text]: a match whose number
    [int] refuses is skipped ([except ValueError: pass]). *)
Definition parse_matches (matches : list (string * string))
  : gmap Z string :=
  foldl (fun result '(n, content) =>
           match int_of rt n with
           | inl k => <[k := strip rt content]> result
           | inr _ => result
           end)
        ∅ matches.

(** The second loop, over the lines of the answer. Here [int] is called
    outside any [try]: its [ValueError] ends the loop and leaves the
    function. *)
Fixpoint parse_lines (lines : list string) (parsed : gmap Z string)
  : result (gmap Z string) :=
  match lines with
  | [] => Ok parsed
  | line :: rest =>
      match match_numbered rt line with
      | Some (g1, g2) =>
          match int_of rt g1 with
          | inl idx =>
              match parsed !! idx with
              | None => parse_lines rest (<[idx := strip rt g2]> parsed)
              | Some _ => parse_lines rest parsed
              end
          | inr msg => Raise (ValueError msg)
          end
      | None => parse_lines rest parsed
      end
  end.

Definition _parse_numbered_text (text : string) (expected : Z)
  : result (gmap Z string) :=
  let parsed := parse_matches (findall_numbered rt text) in
  if Z.of_nat (size parsed) <? expected
  then parse_lines (splitlines rt text) parsed
  else Ok parsed.

(** The [numbered] list of [_translate_single_batch], from position
    [i] on. *)
Fixpoint numbered_from (i : Z) (segments : list TranscriptSegment)
  : list string :=
  match segments with
  | [] => []
  | seg :: rest =>
      let text := strip rt (ts_text seg) in
      match text with
      | EmptyString => numbered_from (i + 1) rest
      | _ => ("[" +:+ pretty (i + 1) +:+ "] " +:+ text)
               :: numbered_from (i + 1) rest
      end
  end.

Definition build_prompt (segments : list TranscriptSegment)
    (source_lang target_lang : string) : string :=
  let combined_text := String.concat nl (numbered_from 0 segments) in
  let source_name := default source_lang (LANG_NAMES !! source_lang) in
  let target_name := default target_lang (LANG_NAMES !! target_lang) in
  "将下面的" +:+ source_name +:+ "翻译成" +:+ target_name
    +:+ "，保留[编号]：" +:+ nl +:+ nl +:+ combined_text +:+ nl +:+ nl
    +:+ "翻译结果：".

(** The result loop of [_translate_single_batch], from position [i]
    on. *)
Fixpoint build_result (i : Z) (segments : list TranscriptSegment)
    (parsed : gmap Z string) (source_lang target_lang : string)
  : list TranslationSegment :=
  match segments with
  | [] => []
  | seg :: rest =>
      let translated := default (ts_text seg) (parsed !! (i + 1)) in
      {| start_time := ts_start_time seg;
         end_time := ts_end_time seg;
         original_text := ts_text seg;
         translated_text := translated;
         source_language := source_lang;
         target_language := target_lang |}
        :: build_result (i + 1) rest parsed source_lang target_lang
  end.

(** The [try] block holds the call and the parsing of its answer, and
    only [TranslatorError] is caught: the [UnicodeEncodeError] of the call
    and the [ValueError] of the parsing leave the function. An answer of
    [None] would make [re.findall] raise [TypeError]. *)
Definition _translate_single_batch (segments : list TranscriptSegment)
    (source_lang target_lang : string) (offset : Z)
  : M (list TranslationSegment) :=
  let prompt := build_prompt segments source_lang target_lang in
  fun w =>
    let '(answer, w') := _call_ollama prompt 3 w in
    let tried :=
      match answer with
      | Ok (Some translated_text) =>
          _parse_numbered_text translated_text (len segments)
      | Ok None => Raise TypeError
      | Raise e => Raise e
      end in
    let parsed :=
      match tried with
      | Raise (TranslatorError _) => Ok ∅
      | other => other
      end in
    match parsed with
    | Ok parsed =>
        (Ok (build_result 0 segments parsed source_lang target_lang), w')
    | Raise e => (Raise e, w')
    end.

(** The body of the chunk loop of [translate_batch]. *)
Definition batch_body (segments : list TranscriptSegment)
    (source_lang target_lang : string)
    (all_results : list TranslationSegment) (batch_start : Z)
  : M (list TranslationSegment) :=
  let batch_end := Z.min (batch_start + BATCH_SIZE) (len segments) in
  let batch_segments := py_slice segments batch_start batch_end in
  bind (_translate_single_batch batch_segments source_lang target_lang
          batch_start)
       (fun batch_results => ret (all_results ++ batch_results)%list).

Definition translate_batch (segments : list TranscriptSegment)
    (source_lang target_lang : string) : M (list TranslationSegment) :=
  match segments with
  | [] => ret []
  | _ =>
      if negb (should_translate source_lang target_lang)
      then ret (map (echo source_lang target_lang) segments)
      else
        for_each (py_range 0 (len segments) BATCH_SIZE) []
          (batch_body segments source_lang target_lang)
  end.

(** [translate]: one sentence. The text comes back unchanged when it is
    empty, when the two languages are the same, and when the call raises
    [TranslatorError]; otherwise the answer of [_call_ollama] is
    returned as it is, and an exception other than [TranslatorError]
    leaves the function. *)
Definition translate_prompt (text source_lang target_lang : string)
  : string :=
  let source_name := default source_lang (LANG_NAMES !! source_lang) in
  let target_name := default target_lang (LANG_NAMES !! target_lang) in
  nl +:+ "请将下面的" +:+ source_name +:+ "翻译成自然的" +:+ target_name
     +:+ "，" +:+ nl +:+ "并修正口语或不通顺的地方（不要扩写）：" +:+ nl +:+ nl
     +:+ text +:+ nl.

Definition translate (text source_lang target_lang : string)
  : M (option string) :=
  if negb (truthy (Some text))
     || negb (should_translate source_lang target_lang)
  then ret (Some text)
  else
    fun w =>
      match _call_ollama (translate_prompt text source_lang target_lang)
              3 w with
      | (Ok answer, w') => (Ok answer, w')
      | (Raise (TranslatorError _), w') => (Ok (Some text), w')
      | (Raise e, w') => (Raise e, w')
      end.

End WithRuntime.



End Translator.

(** ** ui/main_window.py: the background worker *)
Module ProcessingWorker.

(** The signals of the worker. The fraction carried by
    [progress_updated] is left out; the message is kept. *)
Inductive signal : Type :=
| progress_updated (msg : string)
| processing_complete (manager : SubtitleManager.t)
| processing_error (msg : string).

(** The loader and the recogniser, taken from outside. [recognize] also
    tells how many times it called the progress callback. *)
Record collaborators : Type := mkCollaborators {
  AudioData : Type;
  load_file : string -> result AudioData;
  recognize : AudioData -> string -> nat * result (list TranscriptSegment)
}.

Definition str (e : exn) : string :=
  match e with
  | IndexError => "list index out of range"
  | TypeError => "expected string or bytes-like object"
  | KeyError key => "'" +:+ key +:+ "'"
  | ValueError msg => msg
  | UnicodeEncodeError msg => msg
  | AudioProcessorError msg => msg
  | SpeechRecognizerError msg => msg
  | TranslatorError msg => msg
  | OtherError msg => msg
  end.

(** The two [except] clauses of [run]. *)
Definition on_exception (e : exn) : signal :=
  match e with
  | AudioProcessorError _ | SpeechRecognizerError _ | TranslatorError _ =>
      processing_error (str e)
  | _ => processing_error ("处理失败: " +:+ str e)
  end.

(** [run]: the signals emitted, in order, and the prompts sent. *)
Definition run (rt : runtime) (c : collaborators)
    (file_path source_lang target_lang : string) (w : list string)
  : list signal * list string :=
  let s0 := [progress_updated "正在加载音频文件…"] in
  match load_file c file_path with
  | Raise e => ((s0 ++ [on_exception e])%list, w)
  | Ok audio_data =>
      let s1 := (s0 ++ [progress_updated "正在进行语音识别…"])%list in
      let '(ticks, recognised) := recognize c audio_data source_lang in
      let s2 :=
        (s1 ++ replicate ticks (progress_updated "正在进行语音识别…"))%list in
      match recognised with
      | Raise e => ((s2 ++ [on_exception e])%list, w)
      | Ok [] => ((s2 ++ [processing_error "未识别到语音内容"])%list, w)
      | Ok segments =>
          let s3 := (s2 ++ [progress_updated "正在翻译…"])%list in
          match Translator.translate_batch rt segments source_lang
                  target_lang w with
          | (Raise e, w') => ((s3 ++ [on_exception e])%list, w')
          | (Ok translations, w') =>
              let s4 := (s3 ++ [progress_updated "正在准备显示…"])%list in
              let s5 := (s4 ++ [progress_updated "处理完成"])%list in
              ((s5 ++ [processing_complete translations])%list, w')
          end
      end
  end.

Definition is_progress (s : signal) : Prop :=
  match s with
  | progress_updated _ => True
  | _ => False
  end.

(** The terminal event of a failed run. *)
Definition is_error (s : signal) : Prop :=
  match s with
  | processing_error _ => True
  | _ => False
  end.

End ProcessingWorker.

(** ** ui/main_window.py and the signals of ui/file_queue.py *)
Module MainWindow.

(** The window. [file_queue] is the queue held by the queue widget.
    [_worker] is the file of the last worker created. [started] lists
    the files of the workers started, oldest first: every worker that is
    not terminated runs the loader, the recogniser and the translator on
    its file. [subtitles] and [audio_file] are what the subtitle view
    and the player were last given, [critical] the messages of the error
    boxes shown. *)
Record t : Type := mk {
  file_queue : FileQueue.t;
  _subtitle_cache : gmap string SubtitleManager.t;
  _auto_processing : bool;
  _worker : option string;
  started : list string;
  subtitles : option SubtitleManager.t;
  audio_file : option string;
  critical : list string
}.

(** [__init__] *)
Definition new : t :=
  {| file_queue := FileQueue.new; _subtitle_cache := ∅;
     _auto_processing := false; _worker := None; started := [];
     subtitles := None; audio_file := None; critical := [] |}.

Definition with_queue (q : FileQueue.t) (w : t) : t :=
  {| file_queue := q; _subtitle_cache := _subtitle_cache w;
     _auto_processing := _auto_processing w; _worker := _worker w;
     started := started w; subtitles := subtitles w;
     audio_file := audio_file w; critical := critical w |}.

Definition with_auto (b : bool) (w : t) : t :=
  {| file_queue := file_queue w; _subtitle_cache := _subtitle_cache w;
     _auto_processing := b; _worker := _worker w;
     started := started w; subtitles := subtitles w;
     audio_file := audio_file w; critical := critical w |}.

Definition _load_from_cache (file_path : string) (w : t) : t :=
  {| file_queue := file_queue w; _subtitle_cache := _subtitle_cache w;
     _auto_processing := _auto_processing w; _worker := _worker w;
     started := started w;
     subtitles := _subtitle_cache w !! file_path;
     audio_file := Some file_path; critical := critical w |}.

(** A running worker is terminated first; the state of the item at the
    cursor is set, then a worker for [file_path] is created and
    started. *)
Definition _start_processing (file_path : string) (w : t) : t :=
  let current_idx := FileQueue.current_index (file_queue w) in
  let q := snd (FileQueue.set_file_state (file_queue w) current_idx
                  PROCESSING) in
  {| file_queue := q; _subtitle_cache := _subtitle_cache w;
     _auto_processing := _auto_processing w;
     _worker := Some file_path;
     started := (started w ++ [file_path])%list;
     subtitles := subtitles w; audio_file := audio_file w;
     critical := critical w |}.

Definition _on_file_selected (file_path : string) (w : t) : t :=
  if bool_decide (file_path ∈ dom (_subtitle_cache w))
  then _load_from_cache file_path w
  else _start_processing file_path w.

(** The search loop shared by [_start_auto_processing] and
    [_process_next_unprocessed], from position [i] on. *)
Fixpoint first_unprocessed (i : Z) (items : list PlaylistItem)
    (cache : gmap string SubtitleManager.t) : option (Z * string) :=
  match items with
  | [] => None
  | item :: rest =>
      if bool_decide (file_path item ∈ dom cache)
      then first_unprocessed (i + 1) rest cache
      else Some (i, file_path item)
  end.

Definition _start_auto_processing (w : t) : t :=
  match first_unprocessed 0 (FileQueue.items (file_queue w))
          (_subtitle_cache w) with
  | Some (i, path) =>
      let w1 := with_auto true w in
      let w2 := with_queue
                  (snd (FileQueue.set_current_index (file_queue w1) i)) w1 in
      _start_processing path w2
  | None => with_auto false w
  end.

Definition _on_queue_changed (file_paths : list string) (w : t) : t :=
  if negb (_auto_processing w) && negb (bool_decide (file_paths = []))
  then _start_auto_processing w
  else w.

Definition _process_next_unprocessed (w : t) : t :=
  match first_unprocessed 0 (FileQueue.items (file_queue w))
          (_subtitle_cache w) with
  | Some (i, path) =>
      let w1 := with_queue
                  (snd (FileQueue.set_current_index (file_queue w) i)) w in
      _start_processing path w1
  | None => with_auto false w
  end.

Definition _on_complete (manager : SubtitleManager.t) (w : t) : t :=
  let current_file := FileQueue.current_file (file_queue w) in
  let cache :=
    match current_file with
    | Some path =>
        if truthy current_file
        then <[path := manager]> (_subtitle_cache w)
        else _subtitle_cache w
    | None => _subtitle_cache w
    end in
  let current_idx := FileQueue.current_index (file_queue w) in
  let q := snd (FileQueue.set_file_state (file_queue w) current_idx READY) in
  let w1 :=
    {| file_queue := q; _subtitle_cache := cache;
       _auto_processing := _auto_processing w; _worker := _worker w;
       started := started w; subtitles := Some manager;
       audio_file := current_file; critical := critical w |} in
  if _auto_processing w1 then _process_next_unprocessed w1 else w1.

Definition _on_error (msg : string) (w : t) : t :=
  let w1 :=
    {| file_queue := file_queue w; _subtitle_cache := _subtitle_cache w;
       _auto_processing := _auto_processing w; _worker := _worker w;
       started := started w; subtitles := subtitles w;
       audio_file := audio_file w;
       critical := (critical w ++ [msg])%list |} in
  if _auto_processing w1 then _process_next_unprocessed w1 else w1.

Definition _on_playback_finished (w : t) : result t :=
  let current_idx := FileQueue.current_index (file_queue w) in
  let q := snd (FileQueue.set_file_state (file_queue w) current_idx
                  COMPLETED) in
  match FileQueue.get_next_file q with
  | (Raise e, _) => Raise e
  | (Ok next_file, q') =>
      let w1 := with_queue q' w in
      match next_file with
      | Some path =>
          if truthy next_file then Ok (_start_processing path w1) else Ok w1
      | None => Ok w1
      end
  end.

(** A terminal signal of the worker, delivered to its slot. *)
Definition deliver (s : ProcessingWorker.signal) (w : t) : t :=
  match s with
  | ProcessingWorker.progress_updated _ => w
  | ProcessingWorker.processing_complete manager => _on_complete manager w
  | ProcessingWorker.processing_error msg => _on_error msg w
  end.

(** *** The queue widget: its methods emit [queue_changed] and
    [file_selected], which run the connected slots at once. *)

Definition _get_file_paths (w : t) : list string :=
  map file_path (FileQueue.items (file_queue w)).

Definition add_files (file_paths : list string) (w : t) : Z * t :=
  let '(added, q) := FileQueue.add_files (file_queue w) file_paths in
  let w1 := with_queue q w in
  if 0 <? added then
    let w2 := _on_queue_changed (_get_file_paths w1) w1 in
    if FileQueue.count (file_queue w2) =? added then
      let w3 := with_queue
                  (snd (FileQueue.set_current_index (file_queue w2) 0)) w2 in
      match FileQueue.current_file (file_queue w3) with
      | Some path => (added, _on_file_selected path w3)
      | None => (added, w3)
      end
    else (added, w2)
  else (added, w1).

Definition remove_file (index : Z) (w : t) : bool * t :=
  let '(ok, q) := FileQueue.remove_file (file_queue w) index in
  let w1 := with_queue q w in
  if ok then (ok, _on_queue_changed (_get_file_paths w1) w1) else (ok, w1).

Definition move_file (from_index to_index : Z) (w : t) : bool * t :=
  let '(ok, q) := FileQueue.move_file (file_queue w) from_index to_index in
  let w1 := with_queue q w in
  if ok then (ok, _on_queue_changed (_get_file_paths w1) w1) else (ok, w1).

Definition _on_item_clicked (index : Z) (w : t) : t :=
  if negb (index =? FileQueue.current_index (file_queue w)) then
    let '(ok, q) := FileQueue.set_current_index (file_queue w) index in
    if ok then
      let w1 := with_queue q w in
      match FileQueue.current_file (file_queue w1) with
      | Some path => _on_file_selected path w1
      | None => w1
      end
    else w
  else w.

End MainWindow.

(** ** Sample data *)
Module Sample.

Definition item (path : string) (s : FileState) : PlaylistItem :=
  {| file_path := path; file_name := os_path.basename path; state := s |}.

Definition A : PlaylistItem := item "/music/a.wav" PENDING.
Definition B : PlaylistItem := item "/music/b.mp3" PENDING.
Definition C : PlaylistItem := item "/music/c.WAV" PENDING.

(** Three items, the cursor on the first. *)
Definition abc : FileQueue.t :=
  {| FileQueue._items := [A; B; C]; FileQueue._current_index := 0 |}.

(** Three items, the first being processed. *)
Definition busy : FileQueue.t :=
  {| FileQueue._items := [item "/music/a.wav" PROCESSING; B; C];
     FileQueue._current_index := 0 |}.

Definition caption (a b : Q) (text : string) : TranslationSegment :=
  {| start_time := a; end_time := b; original_text := text;
     translated_text := text; source_language := "zh";
     target_language := "zh" |}.

(** Captions over 0-2, 2-4 and 5-7 seconds. *)
Definition captions : SubtitleManager.t :=
  [caption 0 2 "a"; caption 2 4 "b"; caption 5 7 "c"].

(** Twelve one-second segments of Japanese text. *)
Definition transcript : list TranscriptSegment :=
  map (fun k : Z =>
         {| ts_start_time := inject_Z k; ts_end_time := inject_Z (k + 1);
            ts_text := "こんにちは"; ts_language := "ja" |})
      (seqZ 0 12).

Definition is_space (a : ascii) : bool :=
  let n := N_of_ascii a in
  ((n =? 32) || ((9 <=? n) && (n <=? 13)))%N.

Fixpoint lstrip (s : string) : string :=
  match s with
  | EmptyString => EmptyString
  | String a s' => if is_space a then lstrip s' else s
  end.

Fixpoint rstrip (s : string) : string :=
  match s with
  | EmptyString => EmptyString
  | String a s' =>
      match rstrip s' with
      | EmptyString => if is_space a then EmptyString else String a EmptyString
      | r => String a r
      end
  end.

(** The value of a run of ASCII digits, most significant first. *)
Fixpoint digits_value (s : string) (acc : Z) : option Z :=
  match s with
  | EmptyString => Some acc
  | String a s' =>
      let n := Z.of_N (N_of_ascii a) in
      if (48 <=? n) && (n <=? 57)
      then digits_value s' (10 * acc + (n - 48))
      else None
  end.

Definition digits_limit_message (digits : Z) : string :=
  "Exceeds the limit (4300 digits) for integer string conversion: value has "
    +:+ pretty digits
    +:+ " digits; use sys.set_int_max_str_digits() to increase the limit".

(** [int(s)] of CPython 3.11 on a run of ASCII digits, with its default
    limit of 4300 digits. The machines below ask it for nothing else; any
    other text is answered as an invalid literal. *)
Definition py_int (s : string) : Z + string :=
  let invalid := "invalid literal for int() with base 10: '" +:+ s +:+ "'" in
  match s with
  | EmptyString => inr invalid
  | _ =>
      match digits_value s 0 with
      | Some k =>
          if 4300 <? Z.of_nat (String.length s)
          then inr (digits_limit_message (Z.of_nat (String.length s)))
          else inl k
      | None => inr invalid
      end
  end.

(** A machine without the translation service: every HTTP attempt is
    refused. [strip] removes the ASCII blanks; no answer ever reaches
    the parsing functions. *)
Definition offline : runtime :=
  {| strip := fun s => rstrip (lstrip s);
     splitlines := fun _ => [];
     int_of := py_int;
     encode_error := fun _ => None;
     findall_numbered := fun _ => [];
     match_numbered := fun _ => None;
     urlopen := fun _ _ => inr "Connection refused" |}.

Definition manager_a : SubtitleManager.t := [caption 0 2 "a"].
Definition manager_b : SubtitleManager.t := [caption 0 3 "b"].

(** Two files are added to a new window, the run of each completes, and
    the first file is selected again. *)
Definition both_processed : MainWindow.t :=
  let w1 :=
    snd (MainWindow.add_files ["/music/a.wav"; "/music/b.mp3"]
           MainWindow.new) in
  let w2 := MainWindow._on_complete manager_a w1 in
  let w3 := MainWindow._on_complete manager_b w2 in
  MainWindow._on_item_clicked 0 w3.

(** One file is added to a new window; its worker is running. *)
Definition one_added : MainWindow.t :=
  snd (MainWindow.add_files ["/music/a.wav"] MainWindow.new).

(** The window of [both_processed] after the first file has played to
    its end. *)
Definition after_playback : result MainWindow.t :=
  MainWindow._on_playback_finished both_processed.

(** The same window once the worker started by that event is running. *)
Definition replaying : MainWindow.t :=
  match after_playback with
  | Ok w => w
  | Raise _ => both_processed
  end.

(** The state of the item at a position of the queue of a window. *)
Definition state_at (i : nat) (w : MainWindow.t) : option FileState :=
  state <$> FileQueue.items (MainWindow.file_queue w) !! i.

End Sample.

(** ** ui/file_queue.py: dropping a dragged item *)
Module FileQueueWidget.

(** [_calculate_drop_index], from the drop target, the half of it under
    the pointer ([left] or [right]) and the position of the dragged
    item. *)
Definition _calculate_drop_index (_drop_target_index : Z)
    (_drop_position : string) (source_index : Z) : Z :=
  if _drop_target_index =? -1 then -1
  else
    let target := _drop_target_index in
    let target :=
      if bool_decide (_drop_position = "right") then target + 1 else target in
    let target := if source_index <? target then target - 1 else target in
    target.

(** [dropEvent] for a drag that carries the position of a queue item:
    the item is moved unless the computed position is its own or [-1]. *)
Definition dropEvent (source_index _drop_target_index : Z)
    (_drop_position : string) (w : MainWindow.t) : MainWindow.t :=
  let target_index :=
    _calculate_drop_index _drop_target_index _drop_position source_index in
  if negb (target_index =? source_index) && negb (target_index =? -1)
  then snd (MainWindow.move_file source_index target_index w)
  else w.

End FileQueueWidget.

(** ** A session: the events a window receives, in order *)
Module Session.

Inductive event : Type :=
| AddFiles (file_paths : list string)
| RemoveFile (index : Z)
| MoveFile (from_index to_index : Z)
| ItemClicked (index : Z)
| Dropped (source_index _drop_target_index : Z) (_drop_position : string)
| Complete (manager : SubtitleManager.t)
| Failed (msg : string)
| PlaybackFinished.

Definition apply (w : MainWindow.t) (e : event) : result MainWindow.t :=
  match e with
  | AddFiles ps => Ok (snd (MainWindow.add_files ps w))
  | RemoveFile i => Ok (snd (MainWindow.remove_file i w))
  | MoveFile i j => Ok (snd (MainWindow.move_file i j w))
  | ItemClicked i => Ok (MainWindow._on_item_clicked i w)
  | Dropped i j pos => Ok (FileQueueWidget.dropEvent i j pos w)
  | Complete manager => Ok (MainWindow._on_complete manager w)
  | Failed msg => Ok (MainWindow._on_error msg w)
  | PlaybackFinished => MainWindow._on_playback_finished w
  end.

(** The events are handled one after the other; a raise ends the
    session. *)
Fixpoint run (w : MainWindow.t) (es : list event) : result MainWindow.t :=
  match es with
  | [] => Ok w
  | e :: rest =>
      match apply w e with
      | Ok w' => run w' rest
      | Raise x => Raise x
      end
  end.

(** The queue [q'] is what some calls of the queue interface make of
    [q]. *)
Definition reaches (q q' : FileQueue.t) : Prop :=
  exists cs : list FileQueue.call, q' = FileQueue.run q cs.

End Session.

(** ** models/data_models.py: [TranslationResult] and its dictionary *)

(** The values a dictionary read from JSON holds. A dictionary is kept
    as the list of its entries, in insertion order. *)
#[warnings="-register-all"]
Inductive pyval : Type :=
| PNone
| PBool (b : bool)
| PInt (n : Z)
| PFloat (x : Q)
| PStr (s : string)
| PList (l : list pyval)
| PDict (d : list (string * pyval)).

(** Calls that may raise, in sequence. *)
#[global] Instance result_ret : MRet result := @Ok.

#[global] Instance result_bind : MBind result :=
  fun A B k r =>
    match r with
    | Ok a => k a
    | Raise e => Raise e
    end.

Module TranslationResult.

Fixpoint entry (d : list (string * pyval)) (key : string) : option pyval :=
  match d with
  | [] => None
  | (k, v) :: rest => if bool_decide (k = key) then Some v else entry rest key
  end.

(** [v[key]] for a string [key]: [KeyError] on a dictionary without the
    key, [TypeError] on a value that is no dictionary. *)
Definition getitem (v : pyval) (key : string) : result pyval :=
  match v with
  | PDict d =>
      match entry d key with
      | Some x => Ok x
      | None => Raise (KeyError key)
      end
  | _ => Raise TypeError
  end.

(** [for seg in v]: a list gives its items, a dictionary its keys, a
    string its characters (here its bytes, each a string); the other
    values raise [TypeError]. *)
Definition iterate (v : pyval) : result (list pyval) :=
  match v with
  | PList l => Ok l
  | PDict d => Ok (map (fun kv => PStr kv.1) d)
  | PStr s => Ok (map (fun c => PStr (String c EmptyString))
                      (list_ascii_of_string s))
  | _ => Raise TypeError
  end.

(** A [TranslationSegment] object as [from_dict] builds it: the dataclass
    checks no field, each holds the value it was given. *)
Record segment : Type := mk_segment {
  seg_start_time : pyval;
  seg_end_time : pyval;
  seg_original_text : pyval;
  seg_translated_text : pyval;
  seg_source_language : pyval;
  seg_target_language : pyval
}.

Definition segment_to_dict (seg : segment) : pyval :=
  PDict [("start_time", seg_start_time seg);
         ("end_time", seg_end_time seg);
         ("original_text", seg_original_text seg);
         ("translated_text", seg_translated_text seg);
         ("source_language", seg_source_language seg);
         ("target_language", seg_target_language seg)].

(** The body of the comprehension of [from_dict], the keyword arguments
    read from left to right. *)
Definition segment_from_dict (seg : pyval) : result segment :=
  start ← getitem seg "start_time";
  stop ← getitem seg "end_time";
  original ← getitem seg "original_text";
  translated ← getitem seg "translated_text";
  source ← getitem seg "source_language";
  target ← getitem seg "target_language";
  Ok {| seg_start_time := start; seg_end_time := stop;
        seg_original_text := original; seg_translated_text := translated;
        seg_source_language := source; seg_target_language := target |}.

Record t : Type := mk {
  audio_file : pyval;
  source_language : pyval;
  target_language : pyval;
  segments : list segment;
  created_at : pyval
}.

Definition to_dict (r : t) : pyval :=
  PDict [("audio_file", audio_file r);
         ("source_language", source_language r);
         ("target_language", target_language r);
         ("segments", PList (map segment_to_dict (segments r)));
         ("created_at", created_at r)].

(** The segments are read first, then the keyword arguments of [cls]
    from left to right. *)
Definition from_dict (data : pyval) : result t :=
  listed ← getitem data "segments";
  items ← iterate listed;
  segs ← mapM segment_from_dict items;
  audio ← getitem data "audio_file";
  source ← getitem data "source_language";
  target ← getitem data "target_language";
  created ← getitem data "created_at";
  Ok {| audio_file := audio; source_language := source;
        target_language := target; segments := segs;
        created_at := created |}.

End TranslationResult.

(** ** More sample data *)
Module Fixture.

(** The item [add_files] makes for a path. *)
Definition new_item (path : string) : PlaylistItem :=
  {| file_path := path; file_name := os_path.basename path;
     state := PENDING |}.

(** The paths [add_files] admits: the supported ones, in order, as far as
    the queue has room. *)
Definition admitted (q : FileQueue.t) (file_paths : list string)
  : list string :=
  take (Z.to_nat (FileQueue.MAX_FILES - len (FileQueue._items q)))
       (filter (fun p => FileQueue._is_valid_format p = true) file_paths).

(** A machine whose first HTTP attempt is refused and whose second is
    answered by [[1] 你好]. The regular-expression functions and
    [splitlines] are given on that answer. *)
Definition flaky : runtime :=
  {| strip := fun s => Sample.rstrip (Sample.lstrip s);
     splitlines :=
       fun text => if bool_decide (text = "[1] 你好") then [text] else [];
     int_of := Sample.py_int;
     encode_error := fun _ => None;
     findall_numbered :=
       fun text =>
         if bool_decide (text = "[1] 你好") then [("1", "你好")] else [];
     match_numbered :=
       fun line =>
         if bool_decide (line = "[1] 你好") then Some ("1", "你好") else None;
     urlopen := fun sent _ =>
                  match sent with
                  | [] => inr "Connection refused"
                  | _ => inl "[1] 你好"
                  end |}.

(** A run of 4301 nines, one digit more than [int] converts. *)
Definition nines : string :=
  Nat.iter 4301 (String "9"%char) EmptyString.

(** The one-line answer [[99...9] x], its number of 4301 digits. *)
Definition long_answer : string := "[" +:+ nines +:+ "] x".

(** A machine whose service gives [long_answer] at the first attempt.
    The regular-expression functions and [splitlines] are given on that
    answer: [re.findall] finds the one item, the answer is one line, and
    [re.match] finds the number and the content on it. *)
Definition long_number : runtime :=
  {| strip := fun s => Sample.rstrip (Sample.lstrip s);
     splitlines :=
       fun text => if bool_decide (text = long_answer) then [text] else [];
     int_of := Sample.py_int;
     encode_error := fun _ => None;
     findall_numbered :=
       fun text =>
         if bool_decide (text = long_answer) then [(nines, "x")] else [];
     match_numbered :=
       fun line =>
         if bool_decide (line = long_answer) then Some (nines, "x") else None;
     urlopen := fun _ _ => inl long_answer |}.

(** One recognised English segment. *)
Definition hello : TranscriptSegment :=
  {| ts_start_time := 0; ts_end_time := 1; ts_text := "hello";
     ts_language := "en" |}.

(** A recogniser that hears [hello]. *)
Definition one_word : ProcessingWorker.collaborators :=
  {| ProcessingWorker.AudioData := unit;
     ProcessingWorker.load_file := fun _ => Ok tt;
     ProcessingWorker.recognize := fun _ _ => (0%nat, Ok [hello]) |}.

(** A text with a lone surrogate: [hi] and U+D800. A surrogate is kept
    as the three bytes ED A0..BF xx, which no encoded text contains. *)
Definition lone_surrogate_text : string :=
  "hi" +:+ String (ascii_of_nat 237)
             (String (ascii_of_nat 160)
                (String (ascii_of_nat 128) EmptyString)).

Fixpoint has_surrogate (s : string) : bool :=
  match s with
  | String a (String b _ as s') =>
      ((N_of_ascii a =? 237)%N && (160 <=? N_of_ascii b)%N)
      || has_surrogate s'
  | _ => false
  end.

(** The message CPython gives for the prompt of [translate] on
    [lone_surrogate_text] from [en] to [zh]. *)
Definition surrogate_message : string :=
  "'utf-8' codec can't encode character '\ud800' in position 80: surrogates not allowed".

(** A machine whose service answers, and on which a prompt with a
    surrogate does not encode. *)
Definition strict_utf8 : runtime :=
  {| strip := fun s => Sample.rstrip (Sample.lstrip s);
     splitlines := fun _ => [];
     int_of := Sample.py_int;
     encode_error :=
       fun prompt =>
         if has_surrogate prompt then Some surrogate_message else None;
     findall_numbered := fun _ => [];
     match_numbered := fun _ => None;
     urlopen := fun _ _ => inl "你好" |}.

(** A loader that finds no file. *)
Definition no_file : ProcessingWorker.collaborators :=
  {| ProcessingWorker.AudioData := unit;
     ProcessingWorker.load_file :=
       fun p => Raise (AudioProcessorError ("文件不存在: " +:+ p));
     ProcessingWorker.recognize := fun _ _ => (0%nat, Ok []) |}.


(** Overlapping captions: 0-4 and 2-6 seconds. *)
Definition overlapping : SubtitleManager.t :=
  [Sample.caption 0 4 "a"; Sample.caption 2 6 "b"].

(** The paths of the queue that have no cache entry, in queue order:
    what the search loops of the window still have to start. *)
Definition unprocessed (w : MainWindow.t) : list string :=
  filter (fun p => p ∉ dom (MainWindow._subtitle_cache w))
    (MainWindow._get_file_paths w).

(** Two files in a window, the first processed, the second being
    processed in auto mode. *)
Definition half_done : MainWindow.t :=
  MainWindow._on_complete Sample.manager_a
    (snd (MainWindow.add_files ["/music/a.wav"; "/music/b.mp3"]
            MainWindow.new)).

End Fixture.

(** * Properties *)

(** ** Lists and the Python primitives *)

Lemma len_nonneg {A : Type} (l : list A) : 0 <= len l.
Proof. unfold len. lia. Qed.

Lemma len_app {A : Type} (l k : list A) : len (l ++ k) = len l + len k.
Proof. unfold len. rewrite length_app. lia. Qed.

Lemma len_delete {A : Type} (l : list A) (i : nat) :
  (i < length l)%nat -> len (delete i l) = len l - 1.
Proof.
  intros Hi. unfold len. rewrite length_delete.
  - lia.
  - by apply lookup_lt_is_Some.
Qed.

Lemma len_py_insert {A : Type} (i : nat) (x : A) (l : list A) :
  len (py_insert i x l) = len l + 1.
Proof.
  unfold len, py_insert.
  rewrite length_app. cbn [length]. rewrite length_take, length_drop. lia.
Qed.

Lemma py_insert_Permutation {A : Type} (i : nat) (x : A) (l : list A) :
  py_insert i x l ≡ₚ x :: l.
Proof.
  unfold py_insert.
  rewrite <- Permutation_middle. by rewrite take_drop.
Qed.

Lemma lookup_py_insert {A : Type} (i : nat) (x : A) (l : list A) (k : nat) :
  (i <= length l)%nat ->
  py_insert i x l !! k =
    if decide (k < i)%nat then l !! k
    else if decide (k = i) then Some x
    else l !! (k - 1)%nat.
Proof.
  intros Hi. unfold py_insert.
  destruct (decide (k < i)%nat) as [Hlt|Hge].
  - rewrite lookup_app_l by (rewrite length_take; lia).
    by apply lookup_take_lt.
  - rewrite lookup_app_r by (rewrite length_take; lia).
    rewrite length_take, Nat.min_l by lia.
    destruct (decide (k = i)) as [->|Hne].
    + by rewrite Nat.sub_diag.
    + destruct (k - i)%nat as [|d] eqn:Hd; [lia|].
      change ((x :: drop i l) !! S d) with (drop i l !! d).
      rewrite lookup_drop. f_equal. lia.
Qed.

(** ** The file queue: bounds *)

Lemma in_range_spec (q : FileQueue.t) (i : Z) :
  FileQueue.in_range q i = true <-> 0 <= i < len (FileQueue._items q).
Proof. unfold FileQueue.in_range. lia. Qed.

Lemma in_range_lt (q : FileQueue.t) (i : Z) :
  FileQueue.in_range q i = true ->
  (Z.to_nat i < length (FileQueue._items q))%nat.
Proof. rewrite in_range_spec. unfold len. lia. Qed.

Lemma add_files_loop_bounded (ps : list string) (q : FileQueue.t) (n : Z) :
  FileQueue.bounded q -> FileQueue.bounded (FileQueue.add_files_loop ps q n).2.
Proof.
  revert q n. induction ps as [|p ps IH]; intros q n Hq; cbn; [done|].
  destruct (FileQueue.is_full q) eqn:Hfull; [done|].
  destruct (FileQueue._is_valid_format p); cbn; [|by apply IH].
  apply IH. unfold FileQueue.bounded, FileQueue.is_full, FileQueue.MAX_FILES in *.
  cbn. rewrite len_app. change (len [_]) with 1. lia.
Qed.

Lemma remove_file_bounded (q : FileQueue.t) (i : Z) :
  FileQueue.bounded q -> FileQueue.bounded (FileQueue.remove_file q i).2.
Proof.
  intros Hq. unfold FileQueue.remove_file.
  destruct (FileQueue.in_range q i) eqn:Hi; cbn; [|done].
  pose proof (in_range_lt _ _ Hi) as Hlt. apply in_range_spec in Hi.
  unfold FileQueue.bounded in *. cbn.
  rewrite len_delete by done.
  repeat case_match; lia.
Qed.

Lemma move_file_bounded (q : FileQueue.t) (i j : Z) :
  FileQueue.bounded q -> FileQueue.bounded (FileQueue.move_file q i j).2.
Proof.
  intros Hq. unfold FileQueue.move_file.
  destruct (FileQueue.in_range q i) eqn:Hi; cbn; [|done].
  destruct (FileQueue.in_range q j) eqn:Hj; cbn; [|done].
  destruct (i =? j) eqn:Hij; [done|].
  pose proof (in_range_lt _ _ Hi) as Hlt.
  apply in_range_spec in Hi, Hj.
  destruct (FileQueue._items q !! Z.to_nat i) as [item|]; [|done].
  unfold FileQueue.bounded in *. cbn.
  rewrite len_py_insert, len_delete by done.
  repeat case_match; lia.
Qed.

Lemma get_next_file_bounded (q : FileQueue.t) :
  FileQueue.bounded q -> FileQueue.bounded (FileQueue.get_next_file q).2.
Proof.
  intros Hq. unfold FileQueue.get_next_file, FileQueue.has_next.
  destruct (_ <? _) eqn:Hn; [|done].
  assert (FileQueue.bounded
            {| FileQueue._items := FileQueue._items q;
               FileQueue._current_index := FileQueue._current_index q + 1 |}).
  { unfold FileQueue.bounded in *. cbn. lia. }
  by destruct (py_getitem _ _).
Qed.

Lemma set_current_index_bounded (q : FileQueue.t) (i : Z) :
  FileQueue.bounded q -> FileQueue.bounded (FileQueue.set_current_index q i).2.
Proof.
  intros Hq. unfold FileQueue.set_current_index.
  destruct (FileQueue.in_range q i) eqn:Hi; cbn; [|done].
  apply in_range_spec in Hi. unfold FileQueue.bounded in *. cbn. lia.
Qed.

Lemma length_demote_others (i index : Z) (l : list PlaylistItem) :
  length (FileQueue.demote_others i index l) = length l.
Proof. revert i. induction l as [|x l IH]; intros i; cbn; [done|]. by rewrite IH. Qed.

Lemma set_file_state_length (q : FileQueue.t) (i : Z) (s : FileState) :
  length (FileQueue._items (FileQueue.set_file_state q i s).2)
  = length (FileQueue._items q).
Proof.
  unfold FileQueue.set_file_state.
  destruct (FileQueue.in_range q i); cbn; [|done].
  rewrite length_alter. case_bool_decide; [apply length_demote_others|done].
Qed.

Lemma set_file_state_index (q : FileQueue.t) (i : Z) (s : FileState) :
  FileQueue._current_index (FileQueue.set_file_state q i s).2
  = FileQueue._current_index q.
Proof. unfold FileQueue.set_file_state. by destruct (FileQueue.in_range q i). Qed.

Lemma set_file_state_bounded (q : FileQueue.t) (i : Z) (s : FileState) :
  FileQueue.bounded q -> FileQueue.bounded (FileQueue.set_file_state q i s).2.
Proof.
  unfold FileQueue.bounded, len.
  by rewrite set_file_state_length, set_file_state_index.
Qed.

Lemma new_bounded : FileQueue.bounded FileQueue.new.
Proof. unfold FileQueue.bounded, FileQueue.MAX_FILES, len. cbn. lia. Qed.

Lemma step_bounded (q : FileQueue.t) (c : FileQueue.call) :
  FileQueue.bounded q -> FileQueue.bounded (FileQueue.step q c).
Proof.
  destruct c; cbn [FileQueue.step].
  - apply add_files_loop_bounded.
  - apply remove_file_bounded.
  - apply move_file_bounded.
  - apply get_next_file_bounded.
  - apply set_current_index_bounded.
  - apply set_file_state_bounded.
  - intros _. apply new_bounded.
Qed.

Lemma run_bounded (cs : list FileQueue.call) (q : FileQueue.t) :
  FileQueue.bounded q -> FileQueue.bounded (FileQueue.run q cs).
Proof.
  revert q. induction cs as [|c cs IH]; intros q Hq; cbn; [done|].
  apply IH. by apply step_bounded.
Qed.

(** C2. After every sequence of calls of the queue interface on a fresh
    queue ([add_files], [remove_file] and [move_file], and the other
    mutators as well) the queue holds at most [MAX_FILES = 5] items and
    the cursor lies in [-1 .. len - 1], which on an empty queue is [-1]
    alone. *)
Theorem queue_bounds (cs : list FileQueue.call) :
  let q := FileQueue.run FileQueue.new cs in
  FileQueue.MAX_FILES = 5
  /\ len (FileQueue._items q) <= 5
  /\ -1 <= FileQueue._current_index q <= len (FileQueue._items q) - 1.
Proof.
  intros q.
  destruct (run_bounded cs FileQueue.new new_bounded) as [Hlen Hci].
  fold q in Hlen, Hci. unfold FileQueue.MAX_FILES in Hlen.
  repeat split; lia.
Qed.

(** ** The file queue: the single processing slot *)

Lemma processing_count_cons (x : PlaylistItem) (l : list PlaylistItem) :
  FileQueue.processing_count (x :: l)
  = ((if decide (state x = PROCESSING) then 1 else 0)
     + FileQueue.processing_count l)%nat.
Proof.
  unfold FileQueue.processing_count. rewrite filter_cons.
  by destruct (decide (state x = PROCESSING)).
Qed.

Lemma processing_count_app (l k : list PlaylistItem) :
  FileQueue.processing_count (l ++ k)
  = (FileQueue.processing_count l + FileQueue.processing_count k)%nat.
Proof.
  unfold FileQueue.processing_count. by rewrite filter_app, length_app.
Qed.

Lemma processing_count_Permutation (l k : list PlaylistItem) :
  l ≡ₚ k -> FileQueue.processing_count l = FileQueue.processing_count k.
Proof. intros H. unfold FileQueue.processing_count. by rewrite H. Qed.

Lemma processing_count_delete (i : nat) (l : list PlaylistItem) :
  (FileQueue.processing_count (delete i l)
   <= FileQueue.processing_count l)%nat.
Proof.
  revert i. induction l as [|x l IH]; intros [|i]; try done.
  - change (delete 0%nat (x :: l)) with l.
    rewrite processing_count_cons. lia.
  - change (delete (S i) (x :: l)) with (x :: delete i l).
    rewrite !processing_count_cons. specialize (IH i). lia.
Qed.

Lemma processing_count_alter_other (s : FileState) (i : nat)
    (l : list PlaylistItem) :
  s <> PROCESSING ->
  (FileQueue.processing_count (alter (set_state s) i l)
   <= FileQueue.processing_count l)%nat.
Proof.
  intros Hs. revert i. induction l as [|x l IH]; intros [|i]; try done.
  - change (alter (set_state s) 0%nat (x :: l)) with (set_state s x :: l).
    rewrite !processing_count_cons. cbn.
    destruct (decide (s = PROCESSING)); [done|]. lia.
  - change (alter (set_state s) (S i) (x :: l))
      with (x :: alter (set_state s) i l).
    rewrite !processing_count_cons. specialize (IH i). lia.
Qed.

(** Past the position [index], or before it, the loop leaves no item in
    [PROCESSING]. *)
Lemma demote_others_none (i index : Z) (l : list PlaylistItem) :
  index < i \/ i + len l <= index ->
  FileQueue.processing_count (FileQueue.demote_others i index l) = 0%nat.
Proof.
  revert i. induction l as [|x l IH]; intros i Hout;
    cbn [FileQueue.demote_others]; [done|].
  rewrite processing_count_cons.
  rewrite IH by (unfold len in *; cbn [length] in Hout; lia).
  assert ((i =? index) = false) as ->
    by (apply Z.eqb_neq; unfold len in *; cbn [length] in Hout; lia).
  cbn. case_bool_decide as Hx; cbn.
  - by destruct (decide (PENDING = PROCESSING)).
  - by destruct (decide (state x = PROCESSING)).
Qed.

Lemma demote_others_alter_count (f : PlaylistItem -> PlaylistItem) (i : Z)
    (n : nat) (l : list PlaylistItem) :
  (FileQueue.processing_count
     (alter f n (FileQueue.demote_others i (i + Z.of_nat n) l)) <= 1)%nat.
Proof.
  revert i n. induction l as [|x l IH]; intros i [|n];
    cbn [FileQueue.demote_others].
  - unfold FileQueue.processing_count. cbn. lia.
  - unfold FileQueue.processing_count. cbn. lia.
  - match goal with
    | |- context [alter f 0%nat (?a :: ?r)] =>
        change (alter f 0%nat (a :: r)) with (f a :: r)
    end.
    rewrite processing_count_cons.
    rewrite demote_others_none by lia.
    destruct (decide _); lia.
  - match goal with
    | |- context [alter f (S n) (?a :: ?r)] =>
        change (alter f (S n) (a :: r)) with (a :: alter f n r)
    end.
    rewrite processing_count_cons.
    replace (i + Z.of_nat (S n)) with ((i + 1) + Z.of_nat n) by lia.
    specialize (IH (i + 1) n).
    assert ((i =? i + 1 + Z.of_nat n) = false) as ->
      by (apply Z.eqb_neq; lia).
    cbn. case_bool_decide as Hx; cbn.
    + destruct (decide (PENDING = PROCESSING)); [done|]. lia.
    + destruct (decide (state x = PROCESSING)); [done|]. lia.
Qed.

Lemma set_file_state_single (q : FileQueue.t) (i : Z) (s : FileState) :
  (FileQueue.processing_count (FileQueue._items q) <= 1)%nat ->
  (FileQueue.processing_count
     (FileQueue._items (FileQueue.set_file_state q i s).2) <= 1)%nat.
Proof.
  intros Hq. unfold FileQueue.set_file_state.
  destruct (FileQueue.in_range q i) eqn:Hi; cbn; [|done].
  apply in_range_spec in Hi.
  case_bool_decide as Hs.
  - pose proof (demote_others_alter_count (set_state s) 0 (Z.to_nat i)
                  (FileQueue._items q)) as H.
    replace (0 + Z.of_nat (Z.to_nat i)) with i in H by lia.
    exact H.
  - etrans; [by apply processing_count_alter_other|done].
Qed.

Lemma add_files_loop_single (ps : list string) (q : FileQueue.t) (n : Z) :
  FileQueue.processing_count (FileQueue._items (FileQueue.add_files_loop ps q n).2)
  = FileQueue.processing_count (FileQueue._items q).
Proof.
  revert q n. induction ps as [|p ps IH]; intros q n; cbn; [done|].
  destruct (FileQueue.is_full q); [done|].
  destruct (FileQueue._is_valid_format p); cbn; [|by apply IH].
  rewrite IH. cbn. rewrite processing_count_app.
  rewrite processing_count_cons. cbn [state].
  destruct (decide (PENDING = PROCESSING)); [done|].
  change (FileQueue.processing_count []) with 0%nat. lia.
Qed.

Lemma move_file_count (q : FileQueue.t) (i j : Z) :
  FileQueue.processing_count (FileQueue._items (FileQueue.move_file q i j).2)
  = FileQueue.processing_count (FileQueue._items q).
Proof.
  unfold FileQueue.move_file.
  destruct (FileQueue.in_range q i); cbn; [|done].
  destruct (FileQueue.in_range q j); cbn; [|done].
  destruct (i =? j); [done|].
  destruct (FileQueue._items q !! Z.to_nat i) as [item|] eqn:Hitem; [|done].
  cbn. apply processing_count_Permutation.
  rewrite py_insert_Permutation. symmetry. by apply delete_Permutation.
Qed.

Lemma get_next_file_items (q : FileQueue.t) :
  FileQueue._items (FileQueue.get_next_file q).2 = FileQueue._items q.
Proof.
  unfold FileQueue.get_next_file.
  destruct (FileQueue.has_next q); [|done]. by destruct (py_getitem _ _).
Qed.

Lemma step_single (q : FileQueue.t) (c : FileQueue.call) :
  (FileQueue.processing_count (FileQueue._items q) <= 1)%nat ->
  (FileQueue.processing_count (FileQueue._items (FileQueue.step q c)) <= 1)%nat.
Proof.
  intros Hq. destruct c; cbn [FileQueue.step].
  - unfold FileQueue.add_files. by rewrite add_files_loop_single.
  - unfold FileQueue.remove_file. destruct (FileQueue.in_range q index); cbn; [|done].
    etrans; [apply processing_count_delete|done].
  - by rewrite move_file_count.
  - by rewrite get_next_file_items.
  - unfold FileQueue.set_current_index. by destruct (FileQueue.in_range q index).
  - by apply set_file_state_single.
  - cbn. unfold FileQueue.processing_count. cbn. lia.
Qed.

Lemma run_single (cs : list FileQueue.call) (q : FileQueue.t) :
  (FileQueue.processing_count (FileQueue._items q) <= 1)%nat ->
  (FileQueue.processing_count (FileQueue._items (FileQueue.run q cs)) <= 1)%nat.
Proof.
  revert q. induction cs as [|c cs IH]; intros q Hq; cbn; [done|].
  apply IH. by apply step_single.
Qed.

Lemma lookup_demote_others (i index : Z) (l : list PlaylistItem) (j : nat) :
  FileQueue.demote_others i index l !! j
  = (fun item =>
       if negb (i + Z.of_nat j =? index) && bool_decide (state item = PROCESSING)
       then set_state PENDING item else item) <$> l !! j.
Proof.
  revert i j. induction l as [|x l IH]; intros i [|j]; cbn; try done.
  - by rewrite Z.add_0_r.
  - rewrite IH. by replace (i + 1 + Z.of_nat j) with (i + Z.pos (Pos.of_succ_nat j)) by lia.
Qed.

(** C1. On every queue reached from a fresh one by calls of its interface,
    at most one item is in state [PROCESSING]; [set_file_state] keeps this
    on every queue where it holds; and a successful
    [set_file_state(index, PROCESSING)] returns [True], keeps the cursor
    and the length, writes [PROCESSING] at [index] and turns every other
    item that was [PROCESSING] into [PENDING], leaving the rest as they
    were. *)
Theorem single_processing_slot :
  (forall cs : list FileQueue.call,
     (FileQueue.processing_count
        (FileQueue._items (FileQueue.run FileQueue.new cs)) <= 1)%nat)
  /\ (forall (q : FileQueue.t) (index : Z) (s : FileState),
        (FileQueue.processing_count (FileQueue._items q) <= 1)%nat ->
        (FileQueue.processing_count
           (FileQueue._items (FileQueue.set_file_state q index s).2) <= 1)%nat)
  /\ (forall (q : FileQueue.t) (index : Z),
        FileQueue.in_range q index = true ->
        exists q' : FileQueue.t,
          FileQueue.set_file_state q index PROCESSING = (true, q')
          /\ FileQueue._current_index q' = FileQueue._current_index q
          /\ length (FileQueue._items q') = length (FileQueue._items q)
          /\ (FileQueue.processing_count (FileQueue._items q') = 1)%nat
          /\ forall (j : nat) (item : PlaylistItem),
               FileQueue._items q !! j = Some item ->
               FileQueue._items q' !! j
               = Some (FileQueue.after_processing index j item)).
Proof.
  split; [|split].
  - intros cs. apply run_single. vm_compute. lia.
  - intros q index s. apply set_file_state_single.
  - intros q index Hin.
    pose proof (set_file_state_length q index PROCESSING) as Hlen.
    pose proof (set_file_state_index q index PROCESSING) as Hci.
    pose proof (in_range_lt _ _ Hin) as Hlt.
    pose proof Hin as Hrange. apply in_range_spec in Hrange.
    unfold FileQueue.set_file_state in *. rewrite Hin in *. cbn in Hlen, Hci.
    cbn [negb]. rewrite bool_decide_eq_true_2 in * by done.
    eexists. split; [reflexivity|]. cbn [FileQueue._items FileQueue._current_index].
    assert (forall (j : nat) (item : PlaylistItem),
              FileQueue._items q !! j = Some item ->
              alter (set_state PROCESSING) (Z.to_nat index)
                (FileQueue.demote_others 0 index (FileQueue._items q)) !! j
              = Some (FileQueue.after_processing index j item)) as Hlook.
    { intros j item Hj. unfold FileQueue.after_processing.
      destruct (decide (Z.of_nat j = index)) as [Heq|Hne].
      - replace (Z.to_nat index) with j by lia.
        rewrite list_lookup_alter, lookup_demote_others, Hj. cbn.
        rewrite decide_True by done. rewrite Z.add_0_l.
        assert ((Z.of_nat j =? index) = true) as -> by lia. done.
      - rewrite list_lookup_alter_ne by lia.
        rewrite lookup_demote_others, Hj. cbn. rewrite Z.add_0_l.
        assert ((Z.of_nat j =? index) = false) as -> by lia. cbn.
        case_bool_decide; by destruct (decide (state item = PROCESSING)). }
    repeat split; try done.
    apply Nat.le_antisymm.
    + pose proof (demote_others_alter_count (set_state PROCESSING) 0
                    (Z.to_nat index) (FileQueue._items q)) as H.
      by replace (0 + Z.of_nat (Z.to_nat index)) with index in H by lia.
    + destruct (FileQueue._items q !! Z.to_nat index) as [item|] eqn:Hitem.
      2:{ apply lookup_ge_None in Hitem. lia. }
      specialize (Hlook _ _ Hitem).
      unfold FileQueue.after_processing in Hlook.
      rewrite decide_True in Hlook by lia.
      apply list_elem_of_lookup_2 in Hlook.
      unfold FileQueue.processing_count.
      assert (set_state PROCESSING item
              ∈ filter (fun it => state it = PROCESSING)
                  (alter (set_state PROCESSING) (Z.to_nat index)
                     (FileQueue.demote_others 0 index (FileQueue._items q))))
        as Hin'.
      { apply list_elem_of_filter. done. }
      destruct (filter _ _); [by apply elem_of_nil in Hin'|cbn; lia].
Qed.

Lemma single_processing_slot_witness :
  (FileQueue.processing_count (FileQueue._items Sample.busy) <= 1)%nat
  /\ FileQueue.in_range Sample.busy 2 = true
  /\ (FileQueue.processing_count
        (FileQueue._items
           (FileQueue.set_file_state Sample.busy 2 PROCESSING).2) <= 1)%nat
  /\ exists q' : FileQueue.t,
       FileQueue.set_file_state Sample.busy 2 PROCESSING = (true, q')
       /\ FileQueue._current_index q' = 0
       /\ length (FileQueue._items q') = 3%nat
       /\ (FileQueue.processing_count (FileQueue._items q') = 1)%nat
       /\ forall (j : nat) (item : PlaylistItem),
            FileQueue._items Sample.busy !! j = Some item ->
            FileQueue._items q' !! j
            = Some (FileQueue.after_processing 2 j item).
Proof.
  assert (FileQueue.processing_count (FileQueue._items Sample.busy) <= 1)%nat
    as Hone by (vm_compute; lia).
  assert (FileQueue.in_range Sample.busy 2 = true) as Hin by reflexivity.
  split; [exact Hone|]. split; [exact Hin|]. split.
  - exact (proj1 (proj2 single_processing_slot) Sample.busy 2 PROCESSING Hone).
  - exact (proj2 (proj2 single_processing_slot) Sample.busy 2 Hin).
Defined.

(** ** The file queue: moving an item *)

Lemma delete_py_insert {A : Type} (i : nat) (x : A) (l : list A) :
  (i <= length l)%nat -> delete i (py_insert i x l) = l.
Proof.
  intros Hi. unfold py_insert.
  replace i with (length (take i l)) at 1 by (rewrite length_take; lia).
  rewrite delete_middle. apply take_drop.
Qed.

Lemma moved_index_code (from_index to_index ci : Z) :
  (if ci =? from_index then to_index
   else if (from_index <? ci) && (ci <=? to_index) then ci - 1
   else if (to_index <=? ci) && (ci <? from_index) then ci + 1
   else ci)
  = FileQueue.moved_index from_index to_index ci.
Proof.
  unfold FileQueue.moved_index.
  repeat case_decide; repeat case_match; lia.
Qed.

(** The item under the cursor before the move is under it after. *)
Lemma move_tracks {A : Type} (l : list A) (f t c : nat) (x : A) :
  l !! f = Some x -> (t < length l)%nat -> (c < length l)%nat -> f <> t ->
  py_insert t x (delete f l)
    !! Z.to_nat (FileQueue.moved_index (Z.of_nat f) (Z.of_nat t) (Z.of_nat c))
  = l !! c.
Proof.
  intros Hx Ht Hc Hft.
  pose proof (lookup_lt_Some _ _ _ Hx) as Hf.
  assert (length (delete f l) = (length l - 1)%nat) as Hlen
    by (apply length_delete; eauto).
  rewrite lookup_py_insert by lia.
  unfold FileQueue.moved_index.
  repeat case_decide; try lia;
    first [ rewrite <- Hx; f_equal; lia
          | rewrite list_lookup_delete_ge by lia; f_equal; lia
          | rewrite list_lookup_delete_lt by lia; f_equal; lia ].
Qed.

(** C4. [move_file] returns [False] and keeps the queue when an index is
    out of range; returns [True] and keeps the queue when the two indices
    are equal; otherwise it returns [True], the item of position [from] is
    at position [to], the other items keep their order, and the cursor is
    [to] if it was [from], one less if [from < cursor <= to], one more if
    [to <= cursor < from] and unchanged otherwise, so that a cursor on an
    item stays on that item. [move_file(0, 2)] on [A; B; C] with the cursor
    at 0 gives [B; C; A] with the cursor at 2. *)
Theorem move_file_spec :
  (forall (q : FileQueue.t) (from_index to_index : Z),
     FileQueue.in_range q from_index = false
     \/ FileQueue.in_range q to_index = false ->
     FileQueue.move_file q from_index to_index = (false, q))
  /\ (forall (q : FileQueue.t) (index : Z),
        FileQueue.in_range q index = true ->
        FileQueue.move_file q index index = (true, q))
  /\ (forall (q : FileQueue.t) (from_index to_index : Z),
        FileQueue.in_range q from_index = true ->
        FileQueue.in_range q to_index = true ->
        from_index <> to_index ->
        exists (item : PlaylistItem) (q' : FileQueue.t),
          FileQueue._items q !! Z.to_nat from_index = Some item
          /\ FileQueue.move_file q from_index to_index = (true, q')
          /\ FileQueue._items q' !! Z.to_nat to_index = Some item
          /\ delete (Z.to_nat to_index) (FileQueue._items q')
             = delete (Z.to_nat from_index) (FileQueue._items q)
          /\ length (FileQueue._items q') = length (FileQueue._items q)
          /\ FileQueue._current_index q'
             = FileQueue.moved_index from_index to_index
                 (FileQueue._current_index q)
          /\ (FileQueue.in_range q (FileQueue._current_index q) = true ->
              FileQueue._items q' !! Z.to_nat (FileQueue._current_index q')
              = FileQueue._items q !! Z.to_nat (FileQueue._current_index q)))
  /\ FileQueue.move_file Sample.abc 0 2
     = (true, {| FileQueue._items := [Sample.B; Sample.C; Sample.A];
                 FileQueue._current_index := 2 |}).
Proof.
  split; [|split; [|split]].
  - intros q f t [H|H]; unfold FileQueue.move_file.
    + by rewrite H.
    + rewrite H. by destruct (FileQueue.in_range q f).
  - intros q i H. unfold FileQueue.move_file. by rewrite H, Z.eqb_refl.
  - intros q f t Hf Ht Hne.
    pose proof (in_range_lt _ _ Hf) as Hflt.
    pose proof (in_range_lt _ _ Ht) as Htlt.
    destruct (FileQueue._items q !! Z.to_nat f) as [item|] eqn:Hitem.
    2:{ apply lookup_ge_None in Hitem. lia. }
    assert (length (delete (Z.to_nat f) (FileQueue._items q))
            = (length (FileQueue._items q) - 1)%nat) as Hlen
      by (apply length_delete; eauto).
    unfold FileQueue.move_file. rewrite Hf, Ht, Hitem. cbn [negb].
    assert ((f =? t) = false) as -> by lia.
    rewrite moved_index_code.
    exists item. eexists. split; [done|]. split; [reflexivity|].
    cbn [FileQueue._items FileQueue._current_index].
    split; [|split; [|split; [|split; [done|]]]].
    + rewrite lookup_py_insert by lia.
      rewrite decide_False by lia. by rewrite decide_True.
    + apply delete_py_insert. lia.
    + unfold py_insert. rewrite length_app. cbn [length].
      rewrite length_take, length_drop. lia.
    + intros Hc. pose proof (in_range_lt _ _ Hc) as Hclt.
      apply in_range_spec in Hf, Ht, Hc.
      pose proof (move_tracks (FileQueue._items q) (Z.to_nat f) (Z.to_nat t)
                    (Z.to_nat (FileQueue._current_index q)) item Hitem Htlt
                    Hclt ltac:(lia)) as H.
      by rewrite !Z2Nat.id in H by lia.
  - reflexivity.
Qed.

Lemma move_file_spec_witness :
  FileQueue.move_file Sample.abc 5 1 = (false, Sample.abc)
  /\ FileQueue.move_file Sample.abc 1 1 = (true, Sample.abc)
  /\ exists (item : PlaylistItem) (q' : FileQueue.t),
       FileQueue._items Sample.abc !! Z.to_nat 2 = Some item
       /\ FileQueue.move_file Sample.abc 2 0 = (true, q')
       /\ FileQueue._items q' !! Z.to_nat 0 = Some item
       /\ delete (Z.to_nat 0) (FileQueue._items q')
          = delete (Z.to_nat 2) (FileQueue._items Sample.abc)
       /\ length (FileQueue._items q') = length (FileQueue._items Sample.abc)
       /\ FileQueue._current_index q'
          = FileQueue.moved_index 2 0 (FileQueue._current_index Sample.abc)
       /\ (FileQueue.in_range Sample.abc (FileQueue._current_index Sample.abc)
           = true ->
           FileQueue._items q' !! Z.to_nat (FileQueue._current_index q')
           = FileQueue._items Sample.abc
               !! Z.to_nat (FileQueue._current_index Sample.abc)).
Proof.
  split; [|split].
  - apply (proj1 move_file_spec Sample.abc 5 1). left. reflexivity.
  - apply (proj1 (proj2 move_file_spec) Sample.abc 1). reflexivity.
  - apply (proj1 (proj2 (proj2 move_file_spec)) Sample.abc 2 0).
    + reflexivity.
    + reflexivity.
    + lia.
Defined.

(** ** The file queue: adding a path twice *)

(** C10. [add_files] does not look for the path in the queue: on a queue
    of fewer than five items that holds an item of path [p], with [p] of a
    supported format, [add_files([p])] returns 1, keeps the old item where
    it was and appends a second item of path [p]. *)
Theorem add_files_keeps_duplicates (q : FileQueue.t) (p : string) (i : nat)
    (item : PlaylistItem) :
  FileQueue.count q < 5 ->
  FileQueue._items q !! i = Some item ->
  file_path item = p ->
  FileQueue._is_valid_format p = true ->
  exists q' : FileQueue.t,
    FileQueue.add_files q [p] = (1, q')
    /\ length (FileQueue._items q') = S (length (FileQueue._items q))
    /\ FileQueue._items q' !! i = Some item
    /\ exists (j : nat) (item' : PlaylistItem),
         j <> i
         /\ FileQueue._items q' !! j = Some item'
         /\ file_path item' = p.
Proof.
  intros Hcount Hi Hp Hvalid.
  unfold FileQueue.add_files. cbn [FileQueue.add_files_loop].
  assert (FileQueue.is_full q = false) as ->.
  { unfold FileQueue.is_full, FileQueue.count, FileQueue.MAX_FILES in *. lia. }
  rewrite Hvalid. cbn [negb].
  eexists. split; [reflexivity|]. cbn [FileQueue._items].
  pose proof (lookup_lt_Some _ _ _ Hi) as Hlt.
  split; [rewrite length_app; cbn; lia|].
  split; [by apply lookup_app_l_Some|].
  exists (length (FileQueue._items q)). eexists.
  split; [lia|]. split.
  - rewrite lookup_app_r by lia. rewrite Nat.sub_diag. reflexivity.
  - reflexivity.
Qed.

Lemma add_files_keeps_duplicates_witness :
  exists q' : FileQueue.t,
    FileQueue.add_files Sample.abc ["/music/c.WAV"] = (1, q')
    /\ length (FileQueue._items q') = 4%nat
    /\ FileQueue._items q' !! 2%nat = Some Sample.C
    /\ exists (j : nat) (item' : PlaylistItem),
         j <> 2%nat
         /\ FileQueue._items q' !! j = Some item'
         /\ file_path item' = "/music/c.WAV".
Proof.
  apply (add_files_keeps_duplicates Sample.abc "/music/c.WAV" 2 Sample.C).
  - vm_compute. reflexivity.
  - reflexivity.
  - reflexivity.
  - vm_compute. reflexivity.
Defined.

(** ** The states of an item *)

Lemma FileState_members_complete (s : FileState) : s ∈ FileState_members.
Proof. destruct s; apply (bool_decide_unpack _); vm_compute; exact I. Qed.

Lemma FileState_at_most_five (l : list FileState) :
  NoDup l -> (length l <= 5)%nat.
Proof.
  intros Hnd.
  change 5%nat with (length FileState_members).
  apply submseteq_length, NoDup_submseteq; [done|].
  intros s _. apply FileState_members_complete.
Qed.

(** C9, as the sources have it. The enumeration has the five members
    [PENDING], [PROCESSING], [READY], [PLAYING], [COMPLETED] and no other;
    no member has the value [failed]. *)
Theorem FileState_five_members :
  FileState_members = [PENDING; PROCESSING; READY; PLAYING; COMPLETED]
  /\ NoDup FileState_members
  /\ (forall s : FileState, s ∈ FileState_members)
  /\ (forall s : FileState, FileState_of_value (FileState_value s) = Some s)
  /\ (forall s : FileState, FileState_value s <> "failed").
Proof.
  split; [reflexivity|]. split; [|split; [|split]].
  - apply (bool_decide_unpack _). vm_compute. exact I.
  - apply FileState_members_complete.
  - by intros [].
  - by intros [].
Qed.

(** C9, as stated, fails: there are no six distinct states, and looking
    the value [failed] up finds no member. *)
Lemma FileState_six_members_counterexample :
  ~ (exists l : list FileState, NoDup l /\ length l = 6%nat)
  /\ FileState_of_value "failed" = None.
Proof.
  split; [|reflexivity].
  intros (l & Hnd & Hlen).
  pose proof (FileState_at_most_five l Hnd). lia.
Qed.

(** ** The caption index *)

Lemma Qlt_bool_iff (a b : Q) :
  SubtitleManager.Qlt_bool a b = true <-> (a < b)%Q.
Proof.
  unfold SubtitleManager.Qlt_bool. rewrite negb_true_iff.
  split.
  - intros H. apply Qnot_le_lt. intros Hle.
    apply Qle_bool_iff in Hle. congruence.
  - intros H. destruct (Qle_bool b a) eqn:Hle; [|done].
    apply Qle_bool_iff in Hle. by apply Qlt_not_le in H.
Qed.

Lemma covers_iff (t : Q) (seg : TranslationSegment) :
  SubtitleManager.covers t seg = true
  <-> (start_time seg <= t)%Q /\ (t < end_time seg)%Q.
Proof.
  unfold SubtitleManager.covers.
  by rewrite andb_true_iff, Qle_bool_iff, Qlt_bool_iff.
Qed.

Lemma scan_Some (segs : list TranslationSegment) (t : Q) (i k : Z) :
  SubtitleManager.scan i segs t = Some k ->
  exists n : nat, k = i + Z.of_nat n /\ SubtitleManager.active segs n t.
Proof.
  revert i. induction segs as [|seg segs IH]; intros i; cbn; [done|].
  destruct (SubtitleManager.covers t seg) eqn:Hc.
  - intros [= <-]. exists 0%nat. split; [lia|].
    exists seg. split; [done|]. by apply covers_iff.
  - intros H. destruct (IH _ H) as (n & -> & Hn).
    exists (S n). split; [lia|]. exact Hn.
Qed.

Lemma scan_None (segs : list TranslationSegment) (t : Q) (i : Z) :
  SubtitleManager.scan i segs t = None ->
  forall j : nat, ~ SubtitleManager.active segs j t.
Proof.
  revert i. induction segs as [|seg segs IH]; intros i; cbn.
  - intros _ j (seg & Hj & _). done.
  - destruct (SubtitleManager.covers t seg) eqn:Hc; [done|].
    intros H [|j] (seg' & Hj & Hact).
    + cbn in Hj. injection Hj as <-.
      apply covers_iff in Hact. congruence.
    + apply (IH _ H j). by exists seg'.
Qed.

(** In an ordered list every later segment starts after the first one
    starts and ends. *)
Lemma ordered_head (a : TranslationSegment) (rest : list TranslationSegment) :
  SubtitleManager.ordered (a :: rest) = true ->
  SubtitleManager.ordered rest = true
  /\ forall (j : nat) (b : TranslationSegment),
       rest !! j = Some b ->
       (start_time a <= start_time b)%Q /\ (end_time a <= start_time b)%Q.
Proof.
  revert a. induction rest as [|b rest IH]; intros a Hord.
  - split; [done|]. intros j b Hj. done.
  - cbn [SubtitleManager.ordered] in Hord.
    apply andb_true_iff in Hord as [Hab Hrest].
    apply andb_true_iff in Hab as [Hs He].
    apply Qle_bool_iff in Hs, He.
    split; [exact Hrest|].
    destruct (IH b Hrest) as [_ Hb].
    intros [|j] c Hj.
    + cbn in Hj. injection Hj as <-. done.
    + destruct (Hb j c Hj) as [Hbc _].
      split; eapply Qle_trans; eauto.
Qed.

Lemma ordered_unique (segs : list TranslationSegment) (t : Q) (i j : nat) :
  SubtitleManager.ordered segs = true ->
  SubtitleManager.active segs i t -> SubtitleManager.active segs j t ->
  (i <= j)%nat -> i = j.
Proof.
  revert i j. induction segs as [|a segs IH]; intros i j Hord.
  - intros (seg & Hi & _). done.
  - destruct (ordered_head _ _ Hord) as [Hrest Hlater].
    intros (si & Hi & Hi1 & Hi2) (sj & Hj & Hj1 & Hj2) Hle.
    destruct i as [|i], j as [|j]; try lia.
    + cbn in Hi, Hj. injection Hi as <-.
      destruct (Hlater j sj Hj) as [_ Hend].
      exfalso. apply (Qlt_irrefl t).
      eapply Qlt_le_trans; [exact Hi2|]. by eapply Qle_trans.
    + f_equal. apply IH; [done| | |lia].
      * by exists si.
      * by exists sj.
Qed.

(** C3. On a segment list that is ordered by start time and
    non-overlapping, [get_current_index] returns the one position [i] with
    [segments[i].start_time <= t < segments[i].end_time] when there is
    one, and [-1] when there is none. On the captions 0-2, 2-4, 5-7 it
    gives 0 at 1, 1 at 2, and [-1] at 4.5 and at 7. *)
Theorem get_current_index_spec :
  (forall (segments : SubtitleManager.t) (t : Q),
     SubtitleManager.ordered segments = true ->
     (exists i : nat,
        SubtitleManager.active segments i t
        /\ (forall j : nat, SubtitleManager.active segments j t -> j = i)
        /\ SubtitleManager.get_current_index segments t = Z.of_nat i)
     \/ ((forall j : nat, ~ SubtitleManager.active segments j t)
         /\ SubtitleManager.get_current_index segments t = -1))
  /\ SubtitleManager.get_current_index Sample.captions 1 = 0
  /\ SubtitleManager.get_current_index Sample.captions 2 = 1
  /\ SubtitleManager.get_current_index Sample.captions (9 # 2) = -1
  /\ SubtitleManager.get_current_index Sample.captions 7 = -1.
Proof.
  split; [|by vm_compute].
  intros segs t Hord.
  unfold SubtitleManager.get_current_index.
  destruct segs as [|first rest].
  { right. split; [|done]. intros j (seg & Hj & _). done. }
  destruct (SubtitleManager.scan 0 (first :: rest) t) as [k|] eqn:Hscan.
  - left. destruct (scan_Some _ _ _ _ Hscan) as (n & -> & Hn).
    exists n. split; [done|]. split; [|lia].
    intros j Hj.
    destruct (Nat.le_ge_cases j n).
    + by apply (ordered_unique (first :: rest) t).
    + symmetry. by apply (ordered_unique (first :: rest) t).
  - right. split; [by eapply scan_None|].
    by repeat case_match.
Qed.

Lemma get_current_index_spec_witness :
  SubtitleManager.ordered Sample.captions = true
  /\ ((exists i : nat,
         SubtitleManager.active Sample.captions i (5 # 2)
         /\ (forall j : nat,
               SubtitleManager.active Sample.captions j (5 # 2) -> j = i)
         /\ SubtitleManager.get_current_index Sample.captions (5 # 2)
            = Z.of_nat i)
      \/ ((forall j : nat, ~ SubtitleManager.active Sample.captions j (5 # 2))
          /\ SubtitleManager.get_current_index Sample.captions (5 # 2) = -1)).
Proof.
  assert (SubtitleManager.ordered Sample.captions = true) as Hord
    by reflexivity.
  split; [exact Hord|].
  exact (proj1 get_current_index_spec Sample.captions (5 # 2) Hord).
Defined.

(** ** The translator *)

Lemma range_fuel_enough (step : Z) (f1 f2 : nat) (start stop : Z) :
  0 < step ->
  (Z.to_nat (stop - start) <= f1)%nat ->
  (Z.to_nat (stop - start) <= f2)%nat ->
  range_fuel f1 start stop step = range_fuel f2 start stop step.
Proof.
  intros Hstep. revert f2 start.
  induction f1 as [|f1 IH]; intros f2 start H1 H2; cbn.
  - destruct f2 as [|f2]; [done|]. cbn.
    by assert ((start <? stop) = false) as -> by lia.
  - destruct (start <? stop) eqn:Hlt.
    + destruct f2 as [|f2]; [lia|]. cbn. rewrite Hlt.
      f_equal. apply IH; lia.
    + destruct f2 as [|f2]; [done|]. cbn. by rewrite Hlt.
Qed.

Lemma range_fuel_shift (d : Z) (f : nat) (start stop step : Z) :
  range_fuel f (start + d) (stop + d) step
  = map (fun s => s + d) (range_fuel f start stop step).
Proof.
  revert start. induction f as [|f IH]; intros start; cbn; [done|].
  assert ((start + d <? stop + d) = (start <? stop)) as -> by lia.
  destruct (start <? stop); [|done]. cbn. f_equal.
  replace (start + d + step) with (start + step + d) by lia. apply IH.
Qed.

Lemma range_fuel_nonneg (f : nat) (start stop step : Z) :
  0 <= start -> 0 < step ->
  Forall (fun s => 0 <= s) (range_fuel f start stop step).
Proof.
  revert start. induction f as [|f IH]; intros start Hs Hstep; cbn; [done|].
  destruct (start <? stop); [|done]. constructor; [done|]. apply IH; lia.
Qed.

Lemma py_range_cons (stop step : Z) :
  0 < stop -> 0 < step ->
  py_range 0 stop step
  = 0 :: map (fun s => s + step) (py_range 0 (stop - step) step).
Proof.
  intros Hstop Hstep. unfold py_range.
  destruct (Z.to_nat (stop - 0)) as [|f] eqn:Hf; [lia|].
  cbn. assert ((0 <? stop) = true) as -> by lia. f_equal.
  rewrite <- range_fuel_shift.
  replace (stop - step + step) with stop by lia.
  apply range_fuel_enough; lia.
Qed.

Lemma py_slice_drop {A : Type} (l : list A) (a b : Z) (d : nat) :
  0 <= a ->
  py_slice l (a + Z.of_nat d) (b + Z.of_nat d) = py_slice (drop d l) a b.
Proof.
  intros Ha. unfold py_slice. rewrite drop_drop.
  f_equal; [f_equal; lia|f_equal; lia].
Qed.

Section TranslatorProperties.

Variable rt : runtime.

(** A prompt that does not encode is never sent. *)
Lemma call_ollama_unencodable (prompt : string) (max_retries : Z)
    (w : list string) (msg : string) :
  encode_error rt prompt = Some msg ->
  Translator._call_ollama rt prompt max_retries w
  = (Raise (UnicodeEncodeError msg), w).
Proof. intros H. unfold Translator._call_ollama. by rewrite H. Qed.

Lemma call_ollama_encoded (prompt : string) (max_retries : Z)
    (w : list string) :
  encode_error rt prompt = None ->
  Translator._call_ollama rt prompt max_retries w
  = Translator._call_ollama_loop rt prompt max_retries
      (py_range 0 max_retries 1) w.
Proof. intros H. unfold Translator._call_ollama. by rewrite H. Qed.

(** With three attempts [_call_ollama] on a prompt that encodes answers
    a text or raises [TranslatorError]; it never falls off its loop. *)
Lemma call_ollama_three (prompt : string) (w : list string) :
  encode_error rt prompt = None ->
  exists w' : list string,
    (exists r : string,
       Translator._call_ollama rt prompt 3 w = (Ok (Some r), w'))
    \/ (exists msg : string,
          Translator._call_ollama rt prompt 3 w
          = (Raise (TranslatorError msg), w')).
Proof.
  intros Henc. rewrite call_ollama_encoded by done.
  change (py_range 0 3 1) with [0; 1; 2].
  cbn [Translator._call_ollama_loop].
  destruct (urlopen rt w prompt); [eauto|].
  change (0 <? 3 - 1) with true. cbn match.
  destruct (urlopen rt (w ++ [prompt])%list prompt); [eauto|].
  change (1 <? 3 - 1) with true. cbn match.
  destruct (urlopen rt ((w ++ [prompt]) ++ [prompt])%list prompt); [eauto|].
  change (2 <? 3 - 1) with false. cbn match. eauto.
Qed.


Lemma build_result_preserves (i : Z) (segments : list TranscriptSegment)
    (parsed : gmap Z string) (source_lang target_lang : string) :
  Forall2 (Translator.preserves source_lang target_lang) segments
    (Translator.build_result i segments parsed source_lang target_lang).
Proof.
  revert i. induction segments as [|seg segments IH]; intros i; cbn.
  - constructor.
  - constructor; [|apply IH]. by repeat split.
Qed.




(** What a chunk gives once its call is answered, by the outcome of the
    parsing. *)
Lemma translate_single_batch_parsed (segments : list TranscriptSegment)
    (source_lang target_lang : string) (offset : Z) (w w' : list string)
    (answer : string) :
  Translator._call_ollama rt
    (Translator.build_prompt rt segments source_lang target_lang) 3 w
  = (Ok (Some answer), w') ->
  Translator._translate_single_batch rt segments source_lang target_lang
    offset w
  = match Translator._parse_numbered_text rt answer (len segments) with
    | Ok parsed =>
        (Ok (Translator.build_result 0 segments parsed source_lang
               target_lang), w')
    | Raise (TranslatorError _) =>
        (Ok (Translator.build_result 0 segments ∅ source_lang target_lang),
         w')
    | Raise e => (Raise e, w')
    end.
Proof.
  intros Hcall. unfold Translator._translate_single_batch. rewrite Hcall.
  destruct (Translator._parse_numbered_text rt answer (len segments))
    as [parsed|e]; [done|]. by destruct e.
Qed.


Lemma for_each_cons {A B : Type} (x : A) (l : list A) (acc : B)
    (body : B -> A -> M B) (w : list string) :
  for_each (x :: l) acc body w
  = match body acc x w with
    | (Ok acc', w') => for_each l acc' body w'
    | (Raise e, w') => (Raise e, w')
    end.
Proof. reflexivity. Qed.

Lemma batch_body_unfold (segments : list TranscriptSegment)
    (source_lang target_lang : string) (acc : list TranslationSegment)
    (s : Z) (w : list string) :
  Translator.batch_body rt segments source_lang target_lang acc s w
  = match Translator._translate_single_batch rt
            (py_slice segments s
               (Z.min (s + Translator.BATCH_SIZE) (len segments)))
            source_lang target_lang s w with
    | (Ok r, w') => (Ok (acc ++ r)%list, w')
    | (Raise e, w') => (Raise e, w')
    end.
Proof. reflexivity. Qed.

Lemma batch_body_acc (segments : list TranscriptSegment)
    (source_lang target_lang : string) (l : list Z)
    (acc : list TranslationSegment) (w : list string) :
  for_each l acc (Translator.batch_body rt segments source_lang target_lang) w
  = bind (for_each l []
            (Translator.batch_body rt segments source_lang target_lang))
         (fun r => ret (acc ++ r)%list) w.
Proof.
  revert acc w. induction l as [|s l IH]; intros acc w.
  - cbn. unfold bind, ret. by rewrite app_nil_r.
  - unfold bind. rewrite !for_each_cons, !batch_body_unfold.
    destruct (Translator._translate_single_batch _ _ _ _ _ _)
      as [[r1|e] w1]; [|done].
    rewrite (IH (acc ++ r1)%list), (IH ([] ++ r1)%list).
    unfold bind, ret.
    destruct (for_each l [] _ w1) as [[r|e] w2]; [|done].
    by rewrite app_assoc.
Qed.

Lemma batch_body_shift (segments : list TranscriptSegment)
    (source_lang target_lang : string) (l : list Z)
    (acc : list TranslationSegment) (w : list string) :
  10 <= len segments ->
  Forall (fun s => 0 <= s) l ->
  for_each (map (fun s => s + 10) l) acc
    (Translator.batch_body rt segments source_lang target_lang) w
  = for_each l acc
      (Translator.batch_body rt (drop 10 segments) source_lang target_lang)
      w.
Proof.
  intros Hlen Hl. revert acc w.
  induction Hl as [|s l Hs Hl IH]; intros acc w; [done|].
  cbn [map]. rewrite !for_each_cons.
  assert (Translator.batch_body rt segments source_lang target_lang acc
            (s + 10) w
          = Translator.batch_body rt (drop 10 segments) source_lang
              target_lang acc s w) as ->.
  { unfold Translator.batch_body, Translator.BATCH_SIZE, bind.
    assert (len (drop 10 segments) = len segments - 10) as ->
      by (unfold len in *; rewrite length_drop; lia).
    replace (Z.min (s + 10 + 10) (len segments))
      with (Z.min (s + 10) (len segments - 10) + Z.of_nat 10) by lia.
    change (s + 10) with (s + Z.of_nat 10) at 1.
    rewrite py_slice_drop by done. done. }
  destruct (Translator.batch_body _ _ _ _ _ _ _) as [[r|e] w1]; [|done].
  apply IH.
Qed.

Lemma translate_batch_loop (segments : list TranscriptSegment)
    (source_lang target_lang : string) (w : list string) :
  source_lang <> target_lang ->
  Translator.translate_batch rt segments source_lang target_lang w
  = for_each (py_range 0 (len segments) Translator.BATCH_SIZE) []
      (Translator.batch_body rt segments source_lang target_lang) w.
Proof.
  intros Hne. unfold Translator.translate_batch, Translator.should_translate.
  rewrite bool_decide_eq_true_2 by done. cbn [negb].
  by destruct segments.
Qed.

(** The first ten segments are translated as one chunk, the rest
    after them. *)
Lemma translate_batch_chunks (segments : list TranscriptSegment)
    (source_lang target_lang : string) (w : list string) :
  source_lang <> target_lang ->
  segments <> [] ->
  Translator.translate_batch rt segments source_lang target_lang w
  = bind (Translator._translate_single_batch rt (take 10 segments)
            source_lang target_lang 0)
      (fun r1 =>
         bind (Translator.translate_batch rt (drop 10 segments) source_lang
                 target_lang)
           (fun r2 => ret (r1 ++ r2)%list)) w.
Proof.
  intros Hne Hnil.
  assert (0 < len segments) as Hpos
    by (destruct segments; [done|unfold len; cbn; lia]).
  rewrite translate_batch_loop by done.
  unfold Translator.BATCH_SIZE.
  rewrite py_range_cons by lia.
  unfold bind at 1. rewrite for_each_cons, batch_body_unfold.
  assert (py_slice segments 0
            (Z.min (0 + Translator.BATCH_SIZE) (len segments))
          = take 10 segments) as ->.
  { unfold py_slice, Translator.BATCH_SIZE. rewrite drop_0.
    destruct (Z.le_gt_cases 10 (len segments)).
    - f_equal. lia.
    - rewrite !take_ge; [done| |]; unfold len in *; lia. }
  destruct (Translator._translate_single_batch _ _ _ _ _ _)
    as [[r1|e] w1]; [|done].
  cbn [app].
  destruct (Z.le_gt_cases 10 (len segments)) as [Hge|Hlt].
  - rewrite batch_body_shift
      by (try done; apply range_fuel_nonneg; lia).
    rewrite batch_body_acc. unfold bind.
    rewrite translate_batch_loop by done.
    unfold Translator.BATCH_SIZE.
    assert (len (drop 10 segments) = len segments - 10) as ->
      by (unfold len in *; rewrite length_drop; lia).
    done.
  - assert (py_range 0 (len segments - 10) 10 = []) as ->.
    { unfold py_range.
      by replace (Z.to_nat (len segments - 10 - 0)) with 0%nat by lia. }
    rewrite drop_ge by (unfold len in *; lia).
    cbn. unfold bind, ret. by rewrite app_nil_r.
Qed.


End TranslatorProperties.

(** C7. [translate_batch] does not return for every input. On one
    English segment, with a service whose answer is the single line
    [[99...9] x], its number of 4301 digits, the first loop of
    [_parse_numbered_text] skips the number [int] refuses, the second loop
    calls [int] on it outside any [try], and the [ValueError] leaves
    [_translate_single_batch], which catches [TranslatorError] only, and
    [translate_batch], after one HTTP attempt. No list is returned and no
    item gets its original text; the worker reports the run as failed. *)
Theorem translate_batch_raises_on_long_number :
  let prompt :=
    Translator.build_prompt Fixture.long_number [Fixture.hello] "en" "zh" in
  let message := Sample.digits_limit_message 4301 in
  urlopen Fixture.long_number [] prompt = inl Fixture.long_answer
  /\ Translator.parse_matches Fixture.long_number
       (findall_numbered Fixture.long_number Fixture.long_answer) = ∅
  /\ Translator._parse_numbered_text Fixture.long_number
       Fixture.long_answer 1 = Raise (ValueError message)
  /\ Translator.translate_batch Fixture.long_number [Fixture.hello]
       "en" "zh" []
     = (Raise (ValueError message), [prompt])
  /\ ProcessingWorker.run Fixture.long_number Fixture.one_word
       "/music/a.wav" "en" "zh" []
     = ([ProcessingWorker.progress_updated "正在加载音频文件…";
         ProcessingWorker.progress_updated "正在进行语音识别…";
         ProcessingWorker.progress_updated "正在翻译…";
         ProcessingWorker.processing_error ("处理失败: " +:+ message)],
        [prompt]).
Proof.
  intros prompt message. subst prompt message.
  split; [reflexivity|].
  split; [vm_compute; reflexivity|].
  split; [vm_compute; reflexivity|].
  split; vm_compute; reflexivity.
Qed.

(** C8. When the source language is the target language,
    [translate_batch] returns the segments with the translated text equal
    to the original text, and sends nothing: the list of prompts sent is
    the one it started from, so no HTTP attempt is made. *)
Theorem same_language_echo (rt : runtime) (segments : list TranscriptSegment)
    (source_lang target_lang : string) (w : list string) :
  source_lang = target_lang ->
  exists out : list TranslationSegment,
    Translator.translate_batch rt segments source_lang target_lang w
    = (Ok out, w)
    /\ length out = length segments
    /\ Forall2 (Translator.preserves source_lang target_lang) segments out
    /\ Forall (fun o => translated_text o = original_text o) out.
Proof.
  intros ->.
  exists (map (Translator.echo target_lang target_lang) segments).
  split; [|split; [|split]].
  - unfold Translator.translate_batch, Translator.should_translate.
    rewrite bool_decide_eq_false_2 by naive_solver.
    by destruct segments.
  - by rewrite length_map.
  - apply Forall2_fmap_r, Forall_Forall2_diag, Forall_forall.
    intros s _. by repeat split.
  - apply Forall_fmap, Forall_forall. by intros s _.
Qed.

Lemma same_language_echo_witness :
  exists out : list TranslationSegment,
    Translator.translate_batch Sample.offline Sample.transcript "ja" "ja"
      ["earlier prompt"]
    = (Ok out, ["earlier prompt"])
    /\ length out = length Sample.transcript
    /\ Forall2 (Translator.preserves "ja" "ja") Sample.transcript out
    /\ Forall (fun o => translated_text o = original_text o) out.
Proof.
  apply (same_language_echo Sample.offline Sample.transcript "ja" "ja").
  reflexivity.
Defined.

(** ** The worker and the window *)

Lemma on_exception_error (e : exn) :
  exists msg : string,
    ProcessingWorker.on_exception e = ProcessingWorker.processing_error msg.
Proof. destruct e; eexists; reflexivity. Qed.

Lemma replicate_progress (n : nat) (msg : string) :
  Forall ProcessingWorker.is_progress
    (replicate n (ProcessingWorker.progress_updated msg)).
Proof. apply Forall_replicate. exact I. Qed.

(** Every run ends with one terminal signal, after progress signals only. *)
Lemma run_one_terminal (rt : runtime) (c : ProcessingWorker.collaborators)
    (file_path source_lang target_lang : string) (w : list string) :
  exists (pre : list ProcessingWorker.signal) (last : ProcessingWorker.signal),
    (ProcessingWorker.run rt c file_path source_lang target_lang w).1
    = (pre ++ [last])%list
    /\ Forall ProcessingWorker.is_progress pre
    /\ ~ ProcessingWorker.is_progress last.
Proof.
  unfold ProcessingWorker.run.
  destruct (ProcessingWorker.load_file c file_path) as [audio|e].
  2:{ destruct (on_exception_error e) as [msg ->].
      eexists _, _. split; [reflexivity|].
      split; [by repeat constructor|by intros []]. }
  destruct (ProcessingWorker.recognize c audio source_lang)
    as [ticks [segments|e]].
  2:{ destruct (on_exception_error e) as [msg ->].
      eexists _, _. split; [reflexivity|]. split; [|by intros []].
      apply Forall_app. split; [by repeat constructor|].
      apply replicate_progress. }
  destruct segments as [|seg segments].
  { eexists _, _. split; [reflexivity|]. split; [|by intros []].
    apply Forall_app. split; [by repeat constructor|].
    apply replicate_progress. }
  destruct (Translator.translate_batch rt (seg :: segments) source_lang
              target_lang w) as [[translations|e] w'].
  - eexists _, _. split; [reflexivity|]. split; [|by intros []].
    rewrite !Forall_app. repeat split;
      first [apply replicate_progress | by repeat constructor].
  - destruct (on_exception_error e) as [msg ->].
    eexists _, _. split; [reflexivity|]. split; [|by intros []].
    rewrite !Forall_app. repeat split;
      first [apply replicate_progress | by repeat constructor].
Qed.

(** A run in which the loader or the recogniser raises, or which
    recognises nothing, ends with [processing_error] and sends nothing. *)
Lemma run_failure (rt : runtime) (c : ProcessingWorker.collaborators)
    (file_path source_lang target_lang : string) (w : list string) :
  (match ProcessingWorker.load_file c file_path with
   | Raise _ => True
   | Ok audio =>
       match (ProcessingWorker.recognize c audio source_lang).2 with
       | Raise _ | Ok [] => True
       | Ok (_ :: _) => False
       end
   end) ->
  exists (pre : list ProcessingWorker.signal) (msg : string),
    ProcessingWorker.run rt c file_path source_lang target_lang w
    = ((pre ++ [ProcessingWorker.processing_error msg])%list, w)
    /\ Forall ProcessingWorker.is_progress pre.
Proof.
  unfold ProcessingWorker.run.
  destruct (ProcessingWorker.load_file c file_path) as [audio|e].
  2:{ intros _. destruct (on_exception_error e) as [msg ->].
      eexists _, _. split; [reflexivity|]. by repeat constructor. }
  destruct (ProcessingWorker.recognize c audio source_lang)
    as [ticks [[|seg segments]|e]]; cbn [snd]; [| done |]; intros _.
  - eexists _, _. split; [reflexivity|].
    apply Forall_app. split; [by repeat constructor|].
    apply replicate_progress.
  - destruct (on_exception_error e) as [msg ->].
    eexists _, _. split; [reflexivity|].
    apply Forall_app. split; [by repeat constructor|].
    apply replicate_progress.
Qed.

Lemma start_processing_cache (p : string) (w : MainWindow.t) :
  MainWindow._subtitle_cache (MainWindow._start_processing p w)
  = MainWindow._subtitle_cache w.
Proof. reflexivity. Qed.

Lemma process_next_unprocessed_cache (w : MainWindow.t) :
  MainWindow._subtitle_cache (MainWindow._process_next_unprocessed w)
  = MainWindow._subtitle_cache w.
Proof.
  unfold MainWindow._process_next_unprocessed.
  by destruct (MainWindow.first_unprocessed _ _ _) as [[i p]|].
Qed.

(** The error slot writes no cache entry and shows one error box. *)
Lemma on_error_cache (msg : string) (w : MainWindow.t) :
  MainWindow._subtitle_cache (MainWindow._on_error msg w)
  = MainWindow._subtitle_cache w
  /\ MainWindow.critical (MainWindow._on_error msg w)
     = (MainWindow.critical w ++ [msg])%list.
Proof.
  unfold MainWindow._on_error. cbn [MainWindow._auto_processing].
  destruct (MainWindow._auto_processing w); [|done].
  split; [by rewrite process_next_unprocessed_cache|].
  unfold MainWindow._process_next_unprocessed.
  by destruct (MainWindow.first_unprocessed _ _ _) as [[i p]|].
Qed.

(** Outside auto mode the error slot leaves the queue as it is, so the
    item keeps the state [_start_processing] gave it. *)
Lemma on_error_manual (msg : string) (w : MainWindow.t) :
  MainWindow._auto_processing w = false ->
  MainWindow.file_queue (MainWindow._on_error msg w) = MainWindow.file_queue w
  /\ MainWindow.started (MainWindow._on_error msg w) = MainWindow.started w.
Proof. intros H. unfold MainWindow._on_error. cbn. by rewrite H. Qed.

(** Selecting a file that has a cache entry starts no worker and shows
    the cached subtitles. *)
Lemma on_file_selected_cached (p : string) (w : MainWindow.t) :
  p ∈ dom (MainWindow._subtitle_cache w) ->
  MainWindow.started (MainWindow._on_file_selected p w) = MainWindow.started w
  /\ MainWindow.subtitles (MainWindow._on_file_selected p w)
     = MainWindow._subtitle_cache w !! p
  /\ MainWindow.file_queue (MainWindow._on_file_selected p w)
     = MainWindow.file_queue w.
Proof.
  intros H. unfold MainWindow._on_file_selected.
  by rewrite bool_decide_eq_true_2.
Qed.

(** The end of a playback consults the queue only: when there is a next
    file a worker is started for it, whatever the cache holds. *)
Lemma on_playback_finished_starts (w w' : MainWindow.t) :
  MainWindow._on_playback_finished w = Ok w' ->
  MainWindow.started w' = MainWindow.started w
  \/ exists p : string,
        MainWindow.started w' = (MainWindow.started w ++ [p])%list
        /\ MainWindow._worker w' = Some p.
Proof.
  unfold MainWindow._on_playback_finished.
  destruct (FileQueue.get_next_file _) as [[next|e] q']; [|done].
  destruct next as [p|]; [|intros [= <-]; by left].
  destruct (truthy (Some p)); intros [= <-]; [|by left].
  right. by exists p.
Qed.

(** C5, on the sources. In the window [Sample.both_processed] the second
    file has a cache entry. Selecting it starts no worker and shows the
    cached subtitles. The end of the playback of the first file starts a
    second worker for it, so the loader, the recogniser and the translator
    run on that file again, and puts it back in state [PROCESSING]. *)
Theorem playback_finished_reprocesses_cached :
  MainWindow._subtitle_cache Sample.both_processed !! "/music/b.mp3"
  = Some Sample.manager_b
  /\ MainWindow.started Sample.both_processed
     = ["/music/a.wav"; "/music/a.wav"; "/music/b.mp3"]
  /\ MainWindow.started
       (MainWindow._on_file_selected "/music/b.mp3" Sample.both_processed)
     = MainWindow.started Sample.both_processed
  /\ MainWindow.subtitles
       (MainWindow._on_file_selected "/music/b.mp3" Sample.both_processed)
     = Some Sample.manager_b
  /\ exists w' : MainWindow.t,
       MainWindow._on_playback_finished Sample.both_processed = Ok w'
       /\ MainWindow.started w'
          = ["/music/a.wav"; "/music/a.wav"; "/music/b.mp3"; "/music/b.mp3"]
       /\ MainWindow._worker w' = Some "/music/b.mp3"
       /\ MainWindow._subtitle_cache w' !! "/music/b.mp3"
          = Some Sample.manager_b
       /\ Sample.state_at 1 w' = Some PROCESSING.
Proof.
  split; [vm_compute; reflexivity|]. split; [vm_compute; reflexivity|].
  split; [vm_compute; reflexivity|]. split; [vm_compute; reflexivity|].
  exists Sample.replaying.
  repeat split; vm_compute; reflexivity.
Qed.

(** C6, on the sources. A file is added to a new window and its run
    fails: the error slot writes no cache entry and shows one error box,
    but the item is still in state [PROCESSING] afterwards (in auto mode a
    new worker has been started for the same file). Outside auto mode, as
    in [Sample.replaying], the error slot starts nothing and the item stays
    in state [PROCESSING] with no run in progress. *)
Theorem on_error_leaves_processing :
  (let w := MainWindow._on_error "文件不存在: /music/a.wav" Sample.one_added in
   MainWindow._subtitle_cache w = ∅
   /\ MainWindow.critical w = ["文件不存在: /music/a.wav"]
   /\ MainWindow._auto_processing w = true
   /\ Sample.state_at 0 Sample.one_added = Some PROCESSING
   /\ Sample.state_at 0 w = Some PROCESSING)
  /\ (let w := MainWindow._on_error "文件不存在: /music/b.mp3"
                 Sample.replaying in
      MainWindow._auto_processing w = false
      /\ MainWindow.critical w = ["文件不存在: /music/b.mp3"]
      /\ MainWindow.started w = MainWindow.started Sample.replaying
      /\ Sample.state_at 1 Sample.replaying = Some PROCESSING
      /\ Sample.state_at 1 w = Some PROCESSING).
Proof. repeat split; vm_compute; reflexivity. Qed.

(** * Further properties of the sources *)

(** ** The file queue *)

Lemma add_files_loop_admitted (ps : list string) (q : FileQueue.t) (n : Z) :
  FileQueue.add_files_loop ps q n
  = (n + len (Fixture.admitted q ps),
     {| FileQueue._items :=
          (FileQueue._items q ++ map Fixture.new_item (Fixture.admitted q ps))%list;
        FileQueue._current_index := FileQueue._current_index q |}).
Proof.
  revert q n. induction ps as [|p ps IH]; intros q n.
  - unfold Fixture.admitted. cbn. rewrite take_nil. cbn.
    rewrite app_nil_r, Z.add_0_r. by destruct q.
  - cbn [FileQueue.add_files_loop].
    unfold FileQueue.is_full, FileQueue.MAX_FILES.
    destruct (5 <=? len (FileQueue._items q)) eqn:Hfull.
    { unfold Fixture.admitted, FileQueue.MAX_FILES.
      replace (Z.to_nat (5 - len (FileQueue._items q))) with 0%nat by lia.
      cbn. rewrite app_nil_r, Z.add_0_r. by destruct q. }
    destruct (FileQueue._is_valid_format p) eqn:Hvalid; cbn [negb].
    + rewrite IH. unfold Fixture.admitted, FileQueue.MAX_FILES.
      cbn [FileQueue._items FileQueue._current_index].
      rewrite filter_cons_True by done.
      rewrite len_app. change (len [_]) with 1.
      destruct (Z.to_nat (5 - len (FileQueue._items q))) as [|room] eqn:Hroom;
        [lia|].
      replace (Z.to_nat (5 - (len (FileQueue._items q) + 1))) with room by lia.
      cbn [take map]. rewrite <- (assoc_L (++)). cbn [app].
      f_equal. unfold len. cbn [length]. lia.
    + rewrite IH. unfold Fixture.admitted.
      rewrite filter_cons_False by (by rewrite Hvalid). done.
Qed.

(** X1. [add_files] appends, in order, an item in state [PENDING] for each
    supported path as long as the queue has fewer than five items, and
    returns how many it appended; the items already there and the cursor
    are kept. *)
Theorem add_files_admits (q : FileQueue.t) (file_paths : list string) :
  FileQueue.add_files q file_paths
  = (len (Fixture.admitted q file_paths),
     {| FileQueue._items :=
          (FileQueue._items q
           ++ map Fixture.new_item (Fixture.admitted q file_paths))%list;
        FileQueue._current_index := FileQueue._current_index q |}).
Proof. unfold FileQueue.add_files. by rewrite add_files_loop_admitted. Qed.

(** X2. [remove_file] returns [False] and keeps the queue for an index out
    of range. Otherwise it returns [True] and deletes that item; a cursor
    on another item stays on that item; a cursor on the removed item goes
    to the item that followed it, or to the new last item (or [-1]) when
    the removed item was the last one. *)
Theorem remove_file_spec (q : FileQueue.t) (index : Z) :
  -1 <= FileQueue._current_index q < len (FileQueue._items q) ->
  (FileQueue.in_range q index = false ->
   FileQueue.remove_file q index = (false, q))
  /\ (FileQueue.in_range q index = true ->
      exists q' : FileQueue.t,
        FileQueue.remove_file q index = (true, q')
        /\ FileQueue._items q' = delete (Z.to_nat index) (FileQueue._items q)
        /\ (FileQueue._current_index q = -1 ->
            FileQueue._current_index q' = -1)
        /\ (0 <= FileQueue._current_index q ->
            FileQueue._current_index q <> index ->
            FileQueue._items q' !! Z.to_nat (FileQueue._current_index q')
            = FileQueue._items q !! Z.to_nat (FileQueue._current_index q))
        /\ (FileQueue._current_index q = index ->
            index < len (FileQueue._items q) - 1 ->
            FileQueue._current_index q' = index
            /\ FileQueue._items q' !! Z.to_nat index
               = FileQueue._items q !! Z.to_nat (index + 1))
        /\ (FileQueue._current_index q = index ->
            index = len (FileQueue._items q) - 1 ->
            FileQueue._current_index q' = len (FileQueue._items q') - 1)).
Proof.
  intros Hci. split.
  - intros H. unfold FileQueue.remove_file. by rewrite H.
  - intros H. pose proof (in_range_lt _ _ H) as Hlt.
    pose proof H as Hr. apply in_range_spec in Hr.
    unfold FileQueue.remove_file. rewrite H. cbn [negb].
    eexists. split; [reflexivity|].
    cbn [FileQueue._items FileQueue._current_index].
    rewrite len_delete by done.
    split; [done|]. split; [|split; [|split]].
    + intros ->. repeat case_match; lia.
    + intros Hnn Hne.
      destruct (len (FileQueue._items q) - 1 <=? FileQueue._current_index q)
        eqn:Hlast.
      * rewrite list_lookup_delete_ge by lia.
        f_equal. lia.
      * destruct (index <? FileQueue._current_index q) eqn:Hlt'.
        -- rewrite list_lookup_delete_ge by lia. f_equal. lia.
        -- rewrite list_lookup_delete_lt by lia. done.
    + intros Heq Hnotlast. rewrite Heq.
      assert ((len (FileQueue._items q) - 1 <=? index) = false) as -> by lia.
      rewrite Z.ltb_irrefl. split; [done|].
      rewrite list_lookup_delete_ge by lia. f_equal. lia.
    + intros Heq Hlast. rewrite Heq.
      by assert ((len (FileQueue._items q) - 1 <=? index) = true) as -> by lia.
Qed.

Lemma remove_file_spec_witness :
  FileQueue.remove_file Sample.abc 7 = (false, Sample.abc)
  /\ exists q' : FileQueue.t,
       FileQueue.remove_file Sample.abc 0 = (true, q')
       /\ FileQueue._items q' = [Sample.B; Sample.C]
       /\ FileQueue._current_index q' = 0.
Proof.
  assert (-1 <= FileQueue._current_index Sample.abc
          < len (FileQueue._items Sample.abc)) as Hci by (vm_compute; done).
  split.
  - apply (proj1 (remove_file_spec Sample.abc 7 Hci)). reflexivity.
  - destruct (proj2 (remove_file_spec Sample.abc 0 Hci) eq_refl)
      as (q' & Heq & Hitems & _ & _ & Hsame & _).
    exists q'. split; [exact Heq|]. split; [exact Hitems|].
    apply Hsame; [reflexivity|vm_compute; reflexivity].
Defined.

(** X3. With the cursor at [-1] or later, [get_next_file] never raises:
    when an item follows the cursor it moves the cursor onto it and
    returns its path, which is then the current file; otherwise it
    returns [None] and keeps the queue. *)
Theorem get_next_file_spec (q : FileQueue.t) :
  -1 <= FileQueue._current_index q ->
  (FileQueue.has_next q = true ->
   exists item : PlaylistItem,
     FileQueue._items q !! Z.to_nat (FileQueue._current_index q + 1)
     = Some item
     /\ FileQueue.get_next_file q
        = (Ok (Some (file_path item)),
           {| FileQueue._items := FileQueue._items q;
              FileQueue._current_index := FileQueue._current_index q + 1 |})
     /\ FileQueue.current_file (FileQueue.get_next_file q).2
        = Some (file_path item))
  /\ (FileQueue.has_next q = false ->
      FileQueue.get_next_file q = (Ok None, q)).
Proof.
  intros Hci. split; intros Hnext.
  - unfold FileQueue.has_next in Hnext.
    destruct (FileQueue._items q !! Z.to_nat (FileQueue._current_index q + 1))
      as [item|] eqn:Hitem.
    2:{ apply lookup_ge_None in Hitem. unfold len in *. lia. }
    exists item. split; [done|].
    assert (FileQueue.get_next_file q
            = (Ok (Some (file_path item)),
               {| FileQueue._items := FileQueue._items q;
                  FileQueue._current_index :=
                    FileQueue._current_index q + 1 |})) as Hget.
    { unfold FileQueue.get_next_file, FileQueue.has_next. rewrite Hnext.
      unfold py_getitem. cbn [FileQueue._items FileQueue._current_index].
      cbv zeta.
      assert ((FileQueue._current_index q + 1 <? 0) = false) as Hnn by lia.
      rewrite !Hnn. by rewrite Hitem. }
    split; [done|]. rewrite Hget. cbn [snd].
    unfold FileQueue.current_file, FileQueue.in_range.
    cbn [FileQueue._items FileQueue._current_index].
    rewrite Hitem.
    assert ((0 <=? FileQueue._current_index q + 1)
            && (FileQueue._current_index q + 1 <? len (FileQueue._items q))
            = true) as -> by lia.
    done.
  - unfold FileQueue.get_next_file. by rewrite Hnext.
Qed.

Lemma get_next_file_spec_witness :
  exists item : PlaylistItem,
    FileQueue._items Sample.abc !! Z.to_nat (0 + 1) = Some item
    /\ FileQueue.get_next_file Sample.abc
       = (Ok (Some (file_path item)),
          {| FileQueue._items := FileQueue._items Sample.abc;
             FileQueue._current_index := 0 + 1 |})
    /\ FileQueue.current_file (FileQueue.get_next_file Sample.abc).2
       = Some (file_path item).
Proof.
  apply (proj1 (get_next_file_spec Sample.abc ltac:(vm_compute; discriminate))).
  reflexivity.
Defined.

Lemma py_insert_delete {A : Type} (i : nat) (x : A) (l : list A) :
  l !! i = Some x -> py_insert i x (delete i l) = l.
Proof.
  revert i. induction l as [|a l IH]; intros [|i] Hx; try done.
  - cbn in Hx. by injection Hx as ->.
  - change (py_insert (S i) x (delete (S i) (a :: l)))
      with (a :: py_insert i x (delete i l)).
    f_equal. by apply IH.
Qed.

Lemma moved_index_back (from_index to_index ci : Z) :
  FileQueue.moved_index to_index from_index
    (FileQueue.moved_index from_index to_index ci) = ci.
Proof. unfold FileQueue.moved_index. repeat case_decide; lia. Qed.

Lemma move_file_moves (q : FileQueue.t) (from_index to_index : Z) :
  FileQueue.in_range q from_index = true ->
  FileQueue.in_range q to_index = true ->
  from_index <> to_index ->
  exists (item : PlaylistItem) (q' : FileQueue.t),
    FileQueue._items q !! Z.to_nat from_index = Some item
    /\ FileQueue.move_file q from_index to_index = (true, q')
    /\ FileQueue._items q' !! Z.to_nat to_index = Some item
    /\ delete (Z.to_nat to_index) (FileQueue._items q')
       = delete (Z.to_nat from_index) (FileQueue._items q)
    /\ length (FileQueue._items q') = length (FileQueue._items q)
    /\ FileQueue._current_index q'
       = FileQueue.moved_index from_index to_index
           (FileQueue._current_index q).
Proof.
  intros Hf Ht Hne.
  pose proof (in_range_lt _ _ Hf) as Hflt.
  pose proof (in_range_lt _ _ Ht) as Htlt.
  destruct (FileQueue._items q !! Z.to_nat from_index) as [item|] eqn:Hitem.
  2:{ apply lookup_ge_None in Hitem. lia. }
  assert (length (delete (Z.to_nat from_index) (FileQueue._items q))
          = (length (FileQueue._items q) - 1)%nat) as Hlen
    by (apply length_delete; eauto).
  unfold FileQueue.move_file. rewrite Hf, Ht, Hitem. cbn [negb].
  assert ((from_index =? to_index) = false) as -> by lia.
  rewrite moved_index_code.
  exists item. eexists. split; [done|]. split; [reflexivity|].
  cbn [FileQueue._items FileQueue._current_index].
  split; [|split; [|split; [|done]]].
  - rewrite lookup_py_insert by lia.
    rewrite decide_False by lia. by rewrite decide_True.
  - apply delete_py_insert. lia.
  - unfold py_insert. rewrite length_app. cbn [length].
    rewrite length_take, length_drop. lia.
Qed.

(** X4. Moving an item and moving it back restores the queue: after a
    successful [move_file(from, to)], [move_file(to, from)] succeeds and
    gives the items and the cursor back as they were. *)
Theorem move_file_back (q : FileQueue.t) (from_index to_index : Z) :
  FileQueue.in_range q from_index = true ->
  FileQueue.in_range q to_index = true ->
  exists q' : FileQueue.t,
    FileQueue.move_file q from_index to_index = (true, q')
    /\ FileQueue.move_file q' to_index from_index = (true, q).
Proof.
  intros Hf Ht.
  destruct (decide (from_index = to_index)) as [->|Hne].
  { exists q. unfold FileQueue.move_file. by rewrite Ht, Z.eqb_refl. }
  destruct (move_file_moves q from_index to_index Hf Ht Hne)
    as (item & q' & Hitem & Hmove & Hto & Hdel & Hlen & Hci).
  exists q'. split; [done|].
  assert (FileQueue.in_range q' to_index = true) as Ht'.
  { apply in_range_spec. apply in_range_spec in Ht. unfold len in *. lia. }
  assert (FileQueue.in_range q' from_index = true) as Hf'.
  { apply in_range_spec. apply in_range_spec in Hf. unfold len in *. lia. }
  unfold FileQueue.move_file. rewrite Ht', Hf', Hto. cbn [negb].
  assert ((to_index =? from_index) = false) as -> by lia.
  rewrite moved_index_code, Hci, moved_index_back, Hdel.
  rewrite py_insert_delete by done. by destruct q.
Qed.

Lemma move_file_back_witness :
  exists q' : FileQueue.t,
    FileQueue.move_file Sample.abc 0 2 = (true, q')
    /\ FileQueue.move_file q' 2 0 = (true, Sample.abc).
Proof.
  apply (move_file_back Sample.abc 0 2); reflexivity.
Defined.

Lemma demote_others_paths (i index : Z) (l : list PlaylistItem) :
  map file_path (FileQueue.demote_others i index l) = map file_path l
  /\ map file_name (FileQueue.demote_others i index l) = map file_name l.
Proof.
  revert i. induction l as [|x l IH]; intros i; [done|].
  cbn [FileQueue.demote_others map]. destruct (IH (i + 1)) as [-> ->].
  by destruct (negb (i =? index) && bool_decide (state x = PROCESSING)).
Qed.

Lemma alter_set_state_paths (s : FileState) (n : nat) (l : list PlaylistItem) :
  map file_path (alter (set_state s) n l) = map file_path l
  /\ map file_name (alter (set_state s) n l) = map file_name l.
Proof.
  revert n. induction l as [|x l IH]; intros [|n]; try done.
  change (alter (set_state s) (S n) (x :: l))
    with (x :: alter (set_state s) n l).
  cbn [map]. by destruct (IH n) as [-> ->].
Qed.

Lemma set_file_state_paths (q : FileQueue.t) (index : Z) (s : FileState) :
  map file_path (FileQueue._items (FileQueue.set_file_state q index s).2)
  = map file_path (FileQueue._items q)
  /\ map file_name (FileQueue._items (FileQueue.set_file_state q index s).2)
     = map file_name (FileQueue._items q).
Proof.
  unfold FileQueue.set_file_state.
  destruct (FileQueue.in_range q index); [|done]. cbn [negb snd FileQueue._items].
  destruct (alter_set_state_paths s (Z.to_nat index)
              (if bool_decide (s = PROCESSING)
               then FileQueue.demote_others 0 index (FileQueue._items q)
               else FileQueue._items q)) as [-> ->].
  case_bool_decide; [apply demote_others_paths|done].
Qed.

(** X5. [set_file_state] returns [False] and keeps the queue for an index
    out of range; it never changes a path, a name, the order or the
    cursor; and with a state other than [PROCESSING] it changes the item
    at [index] only, leaving every other item as it was, one in state
    [PROCESSING] included. *)
Theorem set_file_state_other (q : FileQueue.t) (index : Z) (s : FileState) :
  (FileQueue.in_range q index = false ->
   FileQueue.set_file_state q index s = (false, q))
  /\ map file_path (FileQueue._items (FileQueue.set_file_state q index s).2)
     = map file_path (FileQueue._items q)
  /\ map file_name (FileQueue._items (FileQueue.set_file_state q index s).2)
     = map file_name (FileQueue._items q)
  /\ FileQueue._current_index (FileQueue.set_file_state q index s).2
     = FileQueue._current_index q
  /\ (FileQueue.in_range q index = true ->
      s <> PROCESSING ->
      exists q' : FileQueue.t,
        FileQueue.set_file_state q index s = (true, q')
        /\ forall (j : nat) (item : PlaylistItem),
             FileQueue._items q !! j = Some item ->
             FileQueue._items q' !! j
             = Some (if decide (Z.of_nat j = index) then set_state s item
                     else item)).
Proof.
  split; [|split; [|split; [|split]]].
  - intros H. unfold FileQueue.set_file_state. by rewrite H.
  - apply set_file_state_paths.
  - apply set_file_state_paths.
  - apply set_file_state_index.
  - intros Hin Hs. apply in_range_spec in Hin as Hr.
    unfold FileQueue.set_file_state. rewrite Hin. cbn [negb].
    rewrite bool_decide_eq_false_2 by done.
    eexists. split; [reflexivity|]. cbn [FileQueue._items].
    intros j item Hj. case_decide as Hji.
    + replace (Z.to_nat index) with j by lia.
      rewrite list_lookup_alter, decide_True by done. by rewrite Hj.
    + rewrite list_lookup_alter_ne by lia. done.
Qed.

Lemma set_file_state_other_witness :
  FileQueue.set_file_state Sample.busy 9 READY = (false, Sample.busy)
  /\ exists q' : FileQueue.t,
       FileQueue.set_file_state Sample.busy 1 READY = (true, q')
       /\ forall (j : nat) (item : PlaylistItem),
            FileQueue._items Sample.busy !! j = Some item ->
            FileQueue._items q' !! j
            = Some (if decide (Z.of_nat j = 1) then set_state READY item
                    else item).
Proof.
  split.
  - apply (proj1 (set_file_state_other Sample.busy 9 READY)). reflexivity.
  - apply (proj2 (proj2 (proj2 (proj2
             (set_file_state_other Sample.busy 1 READY))))).
    + reflexivity.
    + discriminate.
Defined.

(** ** The caption index without the ordering *)

Lemma scan_first (segs : list TranslationSegment) (t : Q) (i k : Z) :
  SubtitleManager.scan i segs t = Some k ->
  exists n : nat,
    k = i + Z.of_nat n
    /\ SubtitleManager.active segs n t
    /\ forall j : nat, (j < n)%nat -> ~ SubtitleManager.active segs j t.
Proof.
  revert i. induction segs as [|seg segs IH]; intros i; cbn; [done|].
  destruct (SubtitleManager.covers t seg) eqn:Hc.
  - intros [= <-]. exists 0%nat. split; [lia|]. split; [|lia].
    exists seg. split; [done|]. by apply covers_iff.
  - intros H. destruct (IH _ H) as (n & -> & Hn & Hfirst).
    exists (S n). split; [lia|]. split; [exact Hn|].
    intros [|j] Hj (seg' & Hlook & Hact).
    + cbn in Hlook. injection Hlook as <-.
      apply covers_iff in Hact. congruence.
    + apply (Hfirst j); [lia|]. by exists seg'.
Qed.

Lemma get_current_index_cases (segments : SubtitleManager.t) (t : Q) :
  ((forall j : nat, ~ SubtitleManager.active segments j t)
   /\ SubtitleManager.get_current_index segments t = -1)
  \/ (exists i : nat,
        SubtitleManager.get_current_index segments t = Z.of_nat i
        /\ (i < length segments)%nat
        /\ SubtitleManager.active segments i t
        /\ forall j : nat, (j < i)%nat -> ~ SubtitleManager.active segments j t).
Proof.
  unfold SubtitleManager.get_current_index.
  destruct segments as [|first rest].
  { left. split; [|done]. by intros j (seg & Hj & _). }
  destruct (SubtitleManager.scan 0 (first :: rest) t) as [k|] eqn:Hscan.
  - right. destruct (scan_first _ _ _ _ Hscan) as (n & -> & Hn & Hfirst).
    exists n. split; [lia|]. split; [|done].
    destruct Hn as (seg & Hlook & _). by eapply lookup_lt_Some.
  - left. split; [by eapply scan_None|]. by repeat case_match.
Qed.

(** X6. On any segment list, ordered or not, [get_current_index] returns
    [-1] when no segment covers the time, and otherwise the first
    position whose segment covers it; the result is always [-1] or a
    position of the list. *)
Theorem get_current_index_first (segments : SubtitleManager.t) (t : Q) :
  ((forall j : nat, ~ SubtitleManager.active segments j t)
   /\ SubtitleManager.get_current_index segments t = -1)
  \/ (exists i : nat,
        SubtitleManager.get_current_index segments t = Z.of_nat i
        /\ (i < length segments)%nat
        /\ SubtitleManager.active segments i t
        /\ forall j : nat, (j < i)%nat -> ~ SubtitleManager.active segments j t).
Proof. apply get_current_index_cases. Qed.

Lemma get_current_index_first_witness :
  exists i : nat,
    SubtitleManager.get_current_index Fixture.overlapping 3 = Z.of_nat i
    /\ SubtitleManager.active Fixture.overlapping i 3
    /\ forall j : nat,
         (j < i)%nat -> ~ SubtitleManager.active Fixture.overlapping j 3.
Proof.
  destruct (get_current_index_first Fixture.overlapping 3)
    as [[_ Hnone]|(i & Hi & _ & Hact & Hfirst)].
  - vm_compute in Hnone. discriminate Hnone.
  - exists i. split; [exact Hi|]. split; [exact Hact|exact Hfirst].
Defined.

(** X7. [get_segment_by_index] returns [None] for a negative index, the
    sentinel [-1] of [get_current_index] included, and for an index at or
    past the length; so looking up the result of [get_current_index]
    gives a segment that covers the time, or [None] exactly when no
    segment covers it. *)
Theorem get_segment_by_current_index (segments : SubtitleManager.t) (t : Q) :
  (forall index : Z,
     index < 0 \/ len segments <= index ->
     SubtitleManager.get_segment_by_index segments index = None)
  /\ (forall index : Z,
        0 <= index < len segments ->
        SubtitleManager.get_segment_by_index segments index
        = segments !! Z.to_nat index)
  /\ match SubtitleManager.get_segment_by_index segments
             (SubtitleManager.get_current_index segments t) with
     | Some seg => SubtitleManager.covers t seg = true
     | None => forall j : nat, ~ SubtitleManager.active segments j t
     end.
Proof.
  split; [|split].
  - intros index H. unfold SubtitleManager.get_segment_by_index.
    by assert ((index <? 0) || (len segments <=? index) = true) as -> by lia.
  - intros index H. unfold SubtitleManager.get_segment_by_index.
    by assert ((index <? 0) || (len segments <=? index) = false) as -> by lia.
  - destruct (get_current_index_cases segments t)
      as [[Hnone ->]|(i & -> & Hlt & (seg & Hlook & Hact) & _)].
    + done.
    + unfold SubtitleManager.get_segment_by_index.
      assert ((Z.of_nat i <? 0) || (len segments <=? Z.of_nat i) = false)
        as Hin by (unfold len; lia).
      rewrite Hin, Nat2Z.id.
      assert (segments !! i = Some seg) as -> by exact Hlook.
      by apply covers_iff.
Qed.

Lemma get_segment_by_current_index_witness :
  SubtitleManager.get_segment_by_index Sample.captions (-1) = None
  /\ SubtitleManager.get_segment_by_index Sample.captions 3 = None
  /\ SubtitleManager.get_segment_by_index Sample.captions 2
     = Sample.captions !! Z.to_nat 2.
Proof.
  destruct (get_segment_by_current_index Sample.captions 0)
    as (Hout & Hin & _).
  split; [|split].
  - apply Hout. left. reflexivity.
  - apply Hout. right. discriminate.
  - apply Hin. split; [discriminate|reflexivity].
Defined.

(** ** The translator: retries, parsing, answered chunks *)

Section RetryProperties.

Variable rt : runtime.
Variable prompt : string.
Variable max_retries : nat.

Lemma call_loop_success (f a : nat) (w : list string) (k : nat) (r : string) :
  (max_retries - a <= f)%nat ->
  (a <= k < max_retries)%nat ->
  (forall j : nat, (a <= j < k)%nat ->
     exists e : string,
       urlopen rt (w ++ replicate (j - a) prompt)%list prompt = inr e) ->
  urlopen rt (w ++ replicate (k - a) prompt)%list prompt = inl r ->
  Translator._call_ollama_loop rt prompt (Z.of_nat max_retries)
    (range_fuel f (Z.of_nat a) (Z.of_nat max_retries) 1) w
  = (Ok (Some r), (w ++ replicate (S (k - a)) prompt)%list).
Proof.
  revert a w. induction f as [|f IH]; intros a w Hf Hk Hfail Hok; [lia|].
  cbn [range_fuel].
  assert ((Z.of_nat a <? Z.of_nat max_retries) = true) as -> by lia.
  cbn [Translator._call_ollama_loop].
  destruct (decide (k = a)) as [->|Hne].
  - rewrite Nat.sub_diag in *. cbn [replicate] in *.
    rewrite app_nil_r in Hok. by rewrite Hok.
  - destruct (Hfail a ltac:(lia)) as [e He].
    rewrite Nat.sub_diag in He. cbn [replicate] in He.
    rewrite app_nil_r in He. rewrite He.
    assert ((Z.of_nat a <? Z.of_nat max_retries - 1) = true) as -> by lia.
    replace (Z.of_nat a + 1) with (Z.of_nat (S a)) by lia.
    rewrite (IH (S a) (w ++ [prompt])%list); try lia.
    + rewrite <- (assoc_L (++)). cbn [app].
      replace (S (k - a)) with (S (S (k - S a))) by lia. done.
    + intros j Hj. destruct (Hfail j ltac:(lia)) as [e' He'].
      exists e'. rewrite <- (assoc_L (++)). cbn [app].
      replace (j - a)%nat with (S (j - S a)) in He' by lia. done.
    + rewrite <- (assoc_L (++)). cbn [app].
      replace (k - a)%nat with (S (k - S a)) in Hok by lia. done.
Qed.

Lemma call_loop_failure (f a : nat) (w : list string) (e : string) :
  (max_retries - a <= f)%nat ->
  (a < max_retries)%nat ->
  (forall j : nat, (a <= j < max_retries)%nat ->
     exists e' : string,
       urlopen rt (w ++ replicate (j - a) prompt)%list prompt = inr e') ->
  urlopen rt (w ++ replicate (max_retries - 1 - a) prompt)%list prompt
  = inr e ->
  Translator._call_ollama_loop rt prompt (Z.of_nat max_retries)
    (range_fuel f (Z.of_nat a) (Z.of_nat max_retries) 1) w
  = (Raise (TranslatorError ("Ollama 调用失败: " +:+ e)),
     (w ++ replicate (max_retries - a) prompt)%list).
Proof.
  revert a w. induction f as [|f IH]; intros a w Hf Ha Hfail Hlast; [lia|].
  cbn [range_fuel].
  assert ((Z.of_nat a <? Z.of_nat max_retries) = true) as -> by lia.
  cbn [Translator._call_ollama_loop].
  destruct (decide (a = max_retries - 1)%nat) as [->|Hne].
  - rewrite Nat.sub_diag in Hlast. cbn [replicate] in Hlast.
    rewrite app_nil_r in Hlast. rewrite Hlast.
    assert ((Z.of_nat (max_retries - 1) <? Z.of_nat max_retries - 1) = false)
      as -> by (apply Z.ltb_ge; lia).
    by replace (max_retries - (max_retries - 1))%nat with 1%nat by lia.
  - destruct (Hfail a ltac:(lia)) as [e' He'].
    rewrite Nat.sub_diag in He'. cbn [replicate] in He'.
    rewrite app_nil_r in He'. rewrite He'.
    assert ((Z.of_nat a <? Z.of_nat max_retries - 1) = true) as -> by lia.
    replace (Z.of_nat a + 1) with (Z.of_nat (S a)) by lia.
    rewrite (IH (S a) (w ++ [prompt])%list); try lia.
    + rewrite <- (assoc_L (++)). cbn [app].
      by replace (max_retries - a)%nat with (S (max_retries - S a)) by lia.
    + intros j Hj. destruct (Hfail j ltac:(lia)) as [e'' He''].
      exists e''. rewrite <- (assoc_L (++)). cbn [app].
      replace (j - a)%nat with (S (j - S a)) in He'' by lia. done.
    + rewrite <- (assoc_L (++)). cbn [app].
      replace (max_retries - 1 - a)%nat with (S (max_retries - 1 - S a))
        in Hlast by lia. done.
Qed.

End RetryProperties.

(** X8. [_call_ollama] first encodes the payload: for a prompt that does
    not encode it raises [UnicodeEncodeError] before any attempt, whatever
    [max_retries] is. For a prompt that encodes, with [max_retries]
    attempts allowed, it returns the answer of the first attempt that
    succeeds, after exactly that many attempts; when all [max_retries]
    attempts fail it raises [TranslatorError] with the message of the last
    failure, after exactly [max_retries] attempts; with no attempt allowed
    it returns [None] without calling the service. *)
Theorem call_ollama_retries (rt : runtime) (prompt : string) (w : list string) :
  (forall (msg : string) (max_retries : Z),
     encode_error rt prompt = Some msg ->
     Translator._call_ollama rt prompt max_retries w
     = (Raise (UnicodeEncodeError msg), w))
  /\ (encode_error rt prompt = None ->
      (forall (max_retries k : nat) (r : string),
         (k < max_retries)%nat ->
         (forall j : nat, (j < k)%nat ->
            exists e : string,
              urlopen rt (w ++ replicate j prompt)%list prompt = inr e) ->
         urlopen rt (w ++ replicate k prompt)%list prompt = inl r ->
         Translator._call_ollama rt prompt (Z.of_nat max_retries) w
         = (Ok (Some r), (w ++ replicate (S k) prompt)%list))
      /\ (forall (max_retries : nat) (e : string),
            (0 < max_retries)%nat ->
            (forall j : nat, (j < max_retries)%nat ->
               exists e' : string,
                 urlopen rt (w ++ replicate j prompt)%list prompt = inr e') ->
            urlopen rt (w ++ replicate (max_retries - 1) prompt)%list prompt
            = inr e ->
            Translator._call_ollama rt prompt (Z.of_nat max_retries) w
            = (Raise (TranslatorError ("Ollama 调用失败: " +:+ e)),
               (w ++ replicate max_retries prompt)%list))
      /\ (forall max_retries : Z,
            max_retries <= 0 ->
            Translator._call_ollama rt prompt max_retries w = (Ok None, w))).
Proof.
  split; [intros msg n Henc; by apply call_ollama_unencodable|].
  intros Henc. split; [|split].
  - intros n k r Hk Hfail Hok. rewrite call_ollama_encoded by done.
    unfold py_range.
    pose proof (call_loop_success rt prompt n (Z.to_nat (Z.of_nat n - 0)) 0 w
                  k r) as H.
    rewrite !Nat.sub_0_r in H. apply H; try lia; try done.
    intros j Hj. rewrite Nat.sub_0_r. apply Hfail. lia.
  - intros n e Hn Hfail Hlast. rewrite call_ollama_encoded by done.
    unfold py_range.
    pose proof (call_loop_failure rt prompt n (Z.to_nat (Z.of_nat n - 0)) 0 w
                  e) as H.
    rewrite !Nat.sub_0_r in H. apply H; try lia; try done.
    intros j Hj. rewrite Nat.sub_0_r. apply Hfail. lia.
  - intros n Hn. rewrite call_ollama_encoded by done. unfold py_range.
    by replace (Z.to_nat (n - 0)) with 0%nat by lia.
Qed.

Lemma call_ollama_retries_witness :
  Translator._call_ollama Fixture.flaky "hello" (Z.of_nat 3) []
  = (Ok (Some "[1] 你好"), ["hello"; "hello"])
  /\ Translator._call_ollama Sample.offline "hello" (Z.of_nat 2) []
     = (Raise (TranslatorError "Ollama 调用失败: Connection refused"),
        ["hello"; "hello"])
  /\ Translator._call_ollama Sample.offline "hello" 0 [] = (Ok None, [])
  /\ Translator._call_ollama Fixture.strict_utf8
       (Translator.translate_prompt Fixture.lone_surrogate_text "en" "zh")
       3 []
     = (Raise (UnicodeEncodeError Fixture.surrogate_message), []).
Proof.
  split; [|split; [|split]].
  - apply (proj1 (proj2 (call_ollama_retries Fixture.flaky "hello" [])
                    eq_refl) 3%nat 1%nat).
    + lia.
    + intros j Hj. exists "Connection refused".
      by replace j with 0%nat by lia.
    + reflexivity.
  - apply (proj1 (proj2 (proj2 (call_ollama_retries Sample.offline "hello" [])
                           eq_refl))
             2%nat "Connection refused").
    + lia.
    + intros j Hj. by exists "Connection refused".
    + reflexivity.
  - apply (proj2 (proj2 (proj2 (call_ollama_retries Sample.offline "hello" [])
                           eq_refl))).
    lia.
  - apply (proj1 (call_ollama_retries Fixture.strict_utf8
                    (Translator.translate_prompt Fixture.lone_surrogate_text
                       "en" "zh") [])).
    vm_compute. reflexivity.
Defined.




Lemma build_result_lookup (i : Z) (segments : list TranscriptSegment)
    (parsed : gmap Z string) (source_lang target_lang : string) (j : nat)
    (seg : TranscriptSegment) :
  segments !! j = Some seg ->
  Translator.build_result i segments parsed source_lang target_lang !! j
  = Some {| start_time := ts_start_time seg;
            end_time := ts_end_time seg;
            original_text := ts_text seg;
            translated_text :=
              default (ts_text seg) (parsed !! (i + Z.of_nat j + 1));
            source_language := source_lang;
            target_language := target_lang |}.
Proof.
  revert i j. induction segments as [|s segments IH]; intros i [|j] Hj;
    try done.
  - cbn in Hj. injection Hj as ->. cbn. by rewrite Z.add_0_r.
  - cbn in Hj. cbn [Translator.build_result].
    change ((?x :: ?l) !! S j) with (l !! j).
    rewrite (IH (i + 1) j Hj).
    by replace (i + 1 + Z.of_nat j + 1) with (i + Z.of_nat (S j) + 1) by lia.
Qed.

(** X10. When the service answers a chunk and the answer is parsed, item
    [i] of the chunk (from 0) gets the text the parsed answer has under
    number [i + 1], whatever the offset of the chunk in the batch, and
    keeps its own text as translation when the answer has no such number.
    When the parsing of the answer raises [ValueError],
    [_translate_single_batch] raises it too: no item of the chunk comes
    back. *)
Theorem translate_single_batch_answered (rt : runtime)
    (chunk : list TranscriptSegment) (source_lang target_lang : string)
    (offset : Z) (w w' : list string) (answer : string) :
  Translator._call_ollama rt
    (Translator.build_prompt rt chunk source_lang target_lang) 3 w
  = (Ok (Some answer), w') ->
  (forall parsed : gmap Z string,
     Translator._parse_numbered_text rt answer (len chunk) = Ok parsed ->
     exists out : list TranslationSegment,
       Translator._translate_single_batch rt chunk source_lang target_lang
         offset w = (Ok out, w')
       /\ length out = length chunk
       /\ forall (i : nat) (seg : TranscriptSegment),
            chunk !! i = Some seg ->
            exists o : TranslationSegment,
              out !! i = Some o
              /\ Translator.preserves source_lang target_lang seg o
              /\ translated_text o
                 = default (ts_text seg) (parsed !! (Z.of_nat i + 1)))
  /\ (forall msg : string,
        Translator._parse_numbered_text rt answer (len chunk)
        = Raise (ValueError msg) ->
        Translator._translate_single_batch rt chunk source_lang target_lang
          offset w = (Raise (ValueError msg), w')).
Proof.
  intros Hcall.
  rewrite (translate_single_batch_parsed rt _ _ _ offset _ _ _ Hcall).
  split.
  - intros parsed ->. eexists. split; [reflexivity|]. split.
    + symmetry. eapply Forall2_length, build_result_preserves.
    + intros i seg Hi. rewrite (build_result_lookup _ _ _ _ _ _ _ Hi).
      eexists. split; [reflexivity|]. split; [by repeat split|].
      cbn. by rewrite Z.add_0_l.
  - by intros msg ->.
Qed.

Lemma translate_single_batch_answered_witness :
  let prompt :=
    Translator.build_prompt Fixture.flaky (take 2 Sample.transcript)
      "ja" "zh" in
  (exists out : list TranslationSegment,
     Translator._translate_single_batch Fixture.flaky
       (take 2 Sample.transcript) "ja" "zh" 10 [] = (Ok out, [prompt; prompt])
     /\ length out = 2%nat
     /\ forall (i : nat) (seg : TranscriptSegment),
          take 2 Sample.transcript !! i = Some seg ->
          exists o : TranslationSegment,
            out !! i = Some o
            /\ Translator.preserves "ja" "zh" seg o
            /\ translated_text o
               = default (ts_text seg)
                   (({[1 := "你好"]} : gmap Z string) !! (Z.of_nat i + 1)))
  /\ Translator._translate_single_batch Fixture.long_number
       [Fixture.hello] "en" "zh" 0 []
     = (Raise (ValueError (Sample.digits_limit_message 4301)),
        [Translator.build_prompt Fixture.long_number [Fixture.hello]
           "en" "zh"]).
Proof.
  intros prompt. split.
  - apply (proj1 (translate_single_batch_answered Fixture.flaky
                    (take 2 Sample.transcript) "ja" "zh" 10 []
                    [prompt; prompt] "[1] 你好"
                    ltac:(vm_compute; reflexivity))).
    vm_compute. reflexivity.
  - apply (proj2 (translate_single_batch_answered Fixture.long_number
                    [Fixture.hello] "en" "zh" 0 [] _ Fixture.long_answer
                    ltac:(vm_compute; reflexivity))).
    vm_compute. reflexivity.
Defined.

Lemma call_ollama_sends (rt : runtime) (prompt : string) (w : list string) :
  exists k : nat,
    (k <= 3)%nat
    /\ (Translator._call_ollama rt prompt 3 w).2
       = (w ++ replicate k prompt)%list
    /\ (k = 0%nat ->
        exists msg : string,
          (Translator._call_ollama rt prompt 3 w).1
          = Raise (UnicodeEncodeError msg)).
Proof.
  unfold Translator._call_ollama.
  destruct (encode_error rt prompt) as [msg|].
  { exists 0%nat. cbn [fst snd replicate]. rewrite app_nil_r.
    split; [lia|]. split; [done|]. intros _. by exists msg. }
  change (py_range 0 3 1) with [0; 1; 2].
  cbn [Translator._call_ollama_loop].
  destruct (urlopen rt w prompt);
    [exists 1%nat; split; [lia|split; [done|lia]]|].
  change (0 <? 3 - 1) with true. cbn match.
  destruct (urlopen rt (w ++ [prompt])%list prompt);
    [exists 2%nat; split; [lia|]; split; [|lia];
     by rewrite <- (assoc_L (++))|].
  change (1 <? 3 - 1) with true. cbn match.
  destruct (urlopen rt ((w ++ [prompt]) ++ [prompt])%list prompt);
    exists 3%nat; (split; [lia|]); (split; [|lia]);
    by rewrite <- !(assoc_L (++)).
Qed.

(** A chunk makes at most three attempts, and at least one when it
    returns. *)
Lemma translate_single_batch_sends (rt : runtime)
    (chunk : list TranscriptSegment) (source_lang target_lang : string)
    (offset : Z) (w : list string) :
  exists k : nat,
    (k <= 3)%nat
    /\ (Translator._translate_single_batch rt chunk source_lang target_lang
          offset w).2
       = (w ++ replicate k
                 (Translator.build_prompt rt chunk source_lang target_lang))%list
    /\ (forall out : list TranslationSegment,
          (Translator._translate_single_batch rt chunk source_lang
             target_lang offset w).1 = Ok out ->
          (1 <= k)%nat).
Proof.
  destruct (call_ollama_sends rt
              (Translator.build_prompt rt chunk source_lang target_lang) w)
    as (k & Hk & Hsent & Hzero).
  exists k. split; [done|].
  unfold Translator._translate_single_batch.
  destruct (Translator._call_ollama rt _ 3 w) as [answer w'] eqn:Hcall.
  cbn [fst snd] in Hsent, Hzero. subst w'.
  destruct answer as [[answer|]|e].
  - destruct (Translator._parse_numbered_text rt answer (len chunk))
      as [parsed|e].
    + split; [done|]. intros out _.
      destruct k; [|lia]. by destruct (Hzero eq_refl).
    + destruct e; (split; [done|]); intros out Hout; try done.
      destruct k; [|lia]. by destruct (Hzero eq_refl).
  - split; [done|]. by intros out Hout.
  - destruct e; (split; [done|]); intros out Hout; try done.
    destruct k; [|lia]. by destruct (Hzero eq_refl).
Qed.

Lemma translate_batch_sends (rt : runtime) (n : nat) :
  forall (segments : list TranscriptSegment)
         (source_lang target_lang : string) (w : list string),
    (length segments <= n)%nat ->
    exists sent : list string,
      (Translator.translate_batch rt segments source_lang target_lang w).2
      = (w ++ sent)%list
      /\ len sent <= 3 * ((len segments + 9) / 10)
      /\ (source_lang = target_lang -> sent = [])
      /\ (forall out : list TranslationSegment,
            source_lang <> target_lang ->
            (Translator.translate_batch rt segments source_lang target_lang
               w).1 = Ok out ->
            (len segments + 9) / 10 <= len sent).
Proof.
  induction n as [|n IH]; intros segments source_lang target_lang w Hn.
  { destruct segments; [|cbn in Hn; lia].
    exists []. cbn. rewrite app_nil_r. by repeat split. }
  destruct segments as [|seg segments].
  { exists []. cbn. rewrite app_nil_r. by repeat split. }
  destruct (decide (source_lang = target_lang)) as [->|Hne].
  { exists []. rewrite app_nil_r. split; [|split; [|done]].
    - unfold Translator.translate_batch, Translator.should_translate.
      by rewrite bool_decide_eq_false_2 by naive_solver.
    - unfold len. cbn [length]. Z.div_mod_to_equations. lia. }
  destruct (Translator.translate_batch rt (seg :: segments) source_lang
              target_lang w) as [res wf] eqn:Htb.
  cbn [fst snd].
  rewrite translate_batch_chunks in Htb by done.
  unfold bind at 1 in Htb.
  destruct (translate_single_batch_sends rt (take 10 (seg :: segments))
              source_lang target_lang 0 w) as (k & Hk & Hsent1 & Hpos).
  destruct (Translator._translate_single_batch rt _ _ _ 0 w)
    as [[r1|e1] w1] eqn:Heq1; cbn [fst snd] in Hsent1, Hpos; subst w1.
  2:{ injection Htb as <- <-. eexists. split; [reflexivity|].
      unfold len. rewrite length_replicate. cbn [length].
      split; [Z.div_mod_to_equations; lia|]. by split. }
  specialize (Hpos r1 eq_refl).
  unfold bind at 1 in Htb.
  destruct (IH (drop 10 (seg :: segments)) source_lang target_lang
              (w ++ replicate k
                      (Translator.build_prompt rt (take 10 (seg :: segments))
                         source_lang target_lang))%list)
    as (sent2 & Hsent2 & Hup & _ & Hlow).
  { rewrite length_drop. cbn in *. lia. }
  assert (len (drop 10 (seg :: segments))
          = Z.max 0 (len (seg :: segments) - 10)) as Hdrop
    by (unfold len; rewrite length_drop; lia).
  rewrite Hdrop in Hup, Hlow.
  assert (0 < len (seg :: segments)) by (unfold len; cbn [length]; lia).
  destruct (Translator.translate_batch rt (drop 10 (seg :: segments)) _ _ _)
    as [[r2|e2] w2] eqn:Heq2; cbn [fst snd] in Hsent2, Hlow; subst w2;
    cbn [ret] in Htb; injection Htb as <- <-.
  - eexists (_ ++ sent2)%list. split; [by rewrite (assoc_L (++))|].
    specialize (Hlow r2 Hne eq_refl).
    unfold len in *. rewrite length_app, length_replicate.
    remember (length (seg :: segments)) as L eqn:HL in *. clear HL.
    split; [|split; [done|intros _ _ _]]; Z.div_mod_to_equations; lia.
  - eexists (_ ++ sent2)%list. split; [by rewrite (assoc_L (++))|].
    unfold len in *. rewrite length_app, length_replicate.
    remember (length (seg :: segments)) as L eqn:HL in *. clear HL Hlow.
    split; [|split; [done|by intros out _ Hout]].
    Z.div_mod_to_equations; lia.
Qed.

(** X11. [translate_batch] only appends to the prompts sent. With the same
    language twice it sends nothing. Otherwise it makes at most three HTTP
    attempts for each chunk of ten segments, so at most [3 * ceil(n / 10)]
    attempts for [n] segments, and when it returns it has made at least
    one attempt for each chunk, so at least [ceil(n / 10)]. *)
Theorem translate_batch_attempts (rt : runtime)
    (segments : list TranscriptSegment) (source_lang target_lang : string)
    (w : list string) :
  exists sent : list string,
    (Translator.translate_batch rt segments source_lang target_lang w).2
    = (w ++ sent)%list
    /\ len sent <= 3 * ((len segments + 9) / 10)
    /\ (source_lang = target_lang -> sent = [])
    /\ (forall out : list TranslationSegment,
          source_lang <> target_lang ->
          (Translator.translate_batch rt segments source_lang target_lang
             w).1 = Ok out ->
          (len segments + 9) / 10 <= len sent).
Proof. by apply (translate_batch_sends rt (length segments)). Qed.

Lemma translate_batch_attempts_witness :
  exists sent : list string,
    (Translator.translate_batch Sample.offline Sample.transcript "ja" "zh"
       []).2 = sent
    /\ len sent <= 6
    /\ 2 <= len sent.
Proof.
  destruct (translate_batch_attempts Sample.offline Sample.transcript
              "ja" "zh" []) as (sent & Heq & Hup & _ & Hlow).
  exists sent. split; [exact Heq|]. split.
  - exact Hup.
  - apply (Hlow (map (Translator.echo "ja" "zh") Sample.transcript)).
    + discriminate.
    + vm_compute. reflexivity.
Defined.

(** X12. [translate] returns the text unchanged and sends nothing when
    the text is empty or the two languages are the same. Otherwise it
    raises [UnicodeEncodeError], sending nothing, when its prompt does not
    encode; and when the prompt encodes it always returns: the answer when
    an attempt succeeds, the text unchanged when the three attempts
    fail. *)
Theorem translate_spec (rt : runtime) (text source_lang target_lang : string)
    (w : list string) :
  let prompt := Translator.translate_prompt text source_lang target_lang in
  (text = "" \/ source_lang = target_lang ->
   Translator.translate rt text source_lang target_lang w
   = (Ok (Some text), w))
  /\ (text <> "" -> source_lang <> target_lang ->
      forall msg : string,
        encode_error rt prompt = Some msg ->
        Translator.translate rt text source_lang target_lang w
        = (Raise (UnicodeEncodeError msg), w))
  /\ (text <> "" -> source_lang <> target_lang ->
      forall (answer : string) (w' : list string),
        Translator._call_ollama rt prompt 3 w = (Ok (Some answer), w') ->
        Translator.translate rt text source_lang target_lang w
        = (Ok (Some answer), w'))
  /\ (text <> "" -> source_lang <> target_lang ->
      forall (msg : string) (w' : list string),
        Translator._call_ollama rt prompt 3 w
        = (Raise (TranslatorError msg), w') ->
        Translator.translate rt text source_lang target_lang w
        = (Ok (Some text), w'))
  /\ (encode_error rt prompt = None ->
      exists (out : string) (w' : list string),
        Translator.translate rt text source_lang target_lang w
        = (Ok (Some out), w')).
Proof.
  intros prompt.
  assert (forall t : string, t <> "" -> truthy (Some t) = true) as Htruthy
    by (by intros [|a t]).
  assert (text <> "" -> source_lang <> target_lang ->
          Translator.translate rt text source_lang target_lang w
          = match Translator._call_ollama rt prompt 3 w with
            | (Ok answer, w') => (Ok answer, w')
            | (Raise (TranslatorError _), w') => (Ok (Some text), w')
            | (Raise e, w') => (Raise e, w')
            end) as Hcode.
  { intros Ht Hne. unfold Translator.translate.
    rewrite (Htruthy _ Ht). unfold Translator.should_translate.
    by rewrite bool_decide_eq_true_2 by done. }
  split; [|split; [|split; [|split]]].
  - intros [->| ->]; unfold Translator.translate; [done|].
    unfold Translator.should_translate.
    rewrite bool_decide_eq_false_2 by naive_solver.
    by rewrite orb_true_r.
  - intros Ht Hne msg Henc. rewrite Hcode by done.
    by rewrite (call_ollama_unencodable rt prompt 3 w msg Henc).
  - intros Ht Hne answer w' Hcall. rewrite Hcode by done. by rewrite Hcall.
  - intros Ht Hne msg w' Hcall. rewrite Hcode by done. by rewrite Hcall.
  - intros Henc. unfold Translator.translate.
    destruct (negb (truthy (Some text))
              || negb (Translator.should_translate source_lang target_lang));
      [by eexists _, _|].
    destruct (call_ollama_three rt
                (Translator.translate_prompt text source_lang target_lang) w
                Henc)
      as (w' & [(r & ->)|(msg & ->)]); by eexists _, _.
Qed.

Lemma translate_spec_witness :
  Translator.translate Sample.offline "" "ja" "zh" [] = (Ok (Some ""), [])
  /\ Translator.translate Sample.offline "hello" "en" "en" []
     = (Ok (Some "hello"), [])
  /\ Translator.translate Fixture.strict_utf8 Fixture.lone_surrogate_text
       "en" "zh" []
     = (Raise (UnicodeEncodeError Fixture.surrogate_message), [])
  /\ (let p := Translator.translate_prompt "hello" "en" "zh" in
      Translator.translate Fixture.flaky "hello" "en" "zh" []
      = (Ok (Some "[1] 你好"), [p; p]))
  /\ (let p := Translator.translate_prompt "hello" "en" "zh" in
      Translator.translate Sample.offline "hello" "en" "zh" []
      = (Ok (Some "hello"), [p; p; p])).
Proof.
  split; [|split; [|split; [|split]]].
  - apply (proj1 (translate_spec Sample.offline "" "ja" "zh" [])).
    left. reflexivity.
  - apply (proj1 (translate_spec Sample.offline "hello" "en" "en" [])).
    right. reflexivity.
  - apply (proj1 (proj2 (translate_spec Fixture.strict_utf8
                           Fixture.lone_surrogate_text "en" "zh" []))).
    + discriminate.
    + discriminate.
    + vm_compute. reflexivity.
  - intros p.
    apply (proj1 (proj2 (proj2
             (translate_spec Fixture.flaky "hello" "en" "zh" [])))).
    + discriminate.
    + discriminate.
    + vm_compute. reflexivity.
  - intros p.
    apply (proj1 (proj2 (proj2 (proj2
             (translate_spec Sample.offline "hello" "en" "zh" []))))
             ltac:(discriminate) ltac:(discriminate)
             "Ollama 调用失败: Connection refused").
    vm_compute. reflexivity.
Defined.



(** ** The worker *)



(** X15. A run whose loader raises [AudioProcessorError], whose
    recogniser raises [SpeechRecognizerError] or which recognises no
    segment emits [processing_error] as its last signal, with the message
    of the exception or the fixed message for an empty recognition, after
    progress signals only; it emits no [processing_complete] and sends no
    prompt. *)
Theorem run_reports_failure (rt : runtime)
    (c : ProcessingWorker.collaborators)
    (file_path source_lang target_lang : string) (w : list string) :
  (forall msg : string,
     ProcessingWorker.load_file c file_path = Raise (AudioProcessorError msg) ->
     ProcessingWorker.run rt c file_path source_lang target_lang w
     = ([ProcessingWorker.progress_updated "正在加载音频文件…";
         ProcessingWorker.processing_error msg], w))
  /\ (forall (audio : ProcessingWorker.AudioData c) (ticks : nat)
             (msg : string),
        ProcessingWorker.load_file c file_path = Ok audio ->
        ProcessingWorker.recognize c audio source_lang
        = (ticks, Raise (SpeechRecognizerError msg)) ->
        exists pre : list ProcessingWorker.signal,
          ProcessingWorker.run rt c file_path source_lang target_lang w
          = ((pre ++ [ProcessingWorker.processing_error msg])%list, w)
          /\ Forall ProcessingWorker.is_progress pre)
  /\ (forall (audio : ProcessingWorker.AudioData c) (ticks : nat),
        ProcessingWorker.load_file c file_path = Ok audio ->
        ProcessingWorker.recognize c audio source_lang = (ticks, Ok []) ->
        exists pre : list ProcessingWorker.signal,
          ProcessingWorker.run rt c file_path source_lang target_lang w
          = ((pre ++ [ProcessingWorker.processing_error "未识别到语音内容"])%list,
             w)
          /\ Forall ProcessingWorker.is_progress pre).
Proof.
  split; [|split].
  - intros msg Hload. unfold ProcessingWorker.run. by rewrite Hload.
  - intros audio ticks msg Hload Hrec.
    unfold ProcessingWorker.run. rewrite Hload, Hrec.
    eexists. split; [reflexivity|].
    rewrite Forall_app. split; [by repeat constructor|].
    apply replicate_progress.
  - intros audio ticks Hload Hrec.
    unfold ProcessingWorker.run. rewrite Hload, Hrec.
    eexists. split; [reflexivity|].
    rewrite Forall_app. split; [by repeat constructor|].
    apply replicate_progress.
Qed.

Lemma run_reports_failure_witness :
  ProcessingWorker.run Sample.offline Fixture.no_file "/music/a.wav"
    "ja" "zh" []
  = ([ProcessingWorker.progress_updated "正在加载音频文件…";
      ProcessingWorker.processing_error "文件不存在: /music/a.wav"], []).
Proof.
  apply (proj1 (run_reports_failure Sample.offline Fixture.no_file
                  "/music/a.wav" "ja" "zh" [])).
  reflexivity.
Defined.

(** ** The window: the queue under a session of events *)

Lemma reaches_refl (q : FileQueue.t) : Session.reaches q q.
Proof. by exists []. Qed.

Lemma reaches_trans (q1 q2 q3 : FileQueue.t) :
  Session.reaches q1 q2 -> Session.reaches q2 q3 -> Session.reaches q1 q3.
Proof.
  intros [cs1 ->] [cs2 ->]. exists (cs1 ++ cs2)%list.
  unfold FileQueue.run. by rewrite fold_left_app.
Qed.

Lemma reaches_step (q : FileQueue.t) (c : FileQueue.call) :
  Session.reaches q (FileQueue.step q c).
Proof. by exists [c]. Qed.

Lemma reaches_bounded (q q' : FileQueue.t) :
  Session.reaches q q' -> FileQueue.bounded q -> FileQueue.bounded q'.
Proof. intros [cs ->]. apply run_bounded. Qed.

Lemma reaches_single (q q' : FileQueue.t) :
  Session.reaches q q' ->
  (FileQueue.processing_count (FileQueue._items q) <= 1)%nat ->
  (FileQueue.processing_count (FileQueue._items q') <= 1)%nat.
Proof. intros [cs ->]. apply run_single. Qed.

Lemma with_queue_queue (q : FileQueue.t) (w : MainWindow.t) :
  MainWindow.file_queue (MainWindow.with_queue q w) = q.
Proof. reflexivity. Qed.

Lemma start_processing_reaches (p : string) (w : MainWindow.t) :
  Session.reaches (MainWindow.file_queue w)
    (MainWindow.file_queue (MainWindow._start_processing p w)).
Proof.
  apply (reaches_step _
           (FileQueue.SetFileState
              (FileQueue.current_index (MainWindow.file_queue w)) PROCESSING)).
Qed.

Lemma on_file_selected_reaches (p : string) (w : MainWindow.t) :
  Session.reaches (MainWindow.file_queue w)
    (MainWindow.file_queue (MainWindow._on_file_selected p w)).
Proof.
  unfold MainWindow._on_file_selected. case_bool_decide.
  - apply reaches_refl.
  - apply start_processing_reaches.
Qed.

Lemma set_cursor_start_reaches (i : Z) (p : string) (w : MainWindow.t) :
  Session.reaches (MainWindow.file_queue w)
    (MainWindow.file_queue
       (MainWindow._start_processing p
          (MainWindow.with_queue
             (FileQueue.set_current_index (MainWindow.file_queue w) i).2 w))).
Proof.
  eapply reaches_trans; [|apply start_processing_reaches].
  apply (reaches_step _ (FileQueue.SetCurrentIndex i)).
Qed.

Lemma process_next_unprocessed_reaches (w : MainWindow.t) :
  Session.reaches (MainWindow.file_queue w)
    (MainWindow.file_queue (MainWindow._process_next_unprocessed w)).
Proof.
  unfold MainWindow._process_next_unprocessed.
  destruct (MainWindow.first_unprocessed _ _ _) as [[i p]|].
  - apply set_cursor_start_reaches.
  - apply reaches_refl.
Qed.

Lemma on_queue_changed_reaches (ps : list string) (w : MainWindow.t) :
  Session.reaches (MainWindow.file_queue w)
    (MainWindow.file_queue (MainWindow._on_queue_changed ps w)).
Proof.
  unfold MainWindow._on_queue_changed.
  destruct (negb (MainWindow._auto_processing w)
            && negb (bool_decide (ps = []))); [|apply reaches_refl].
  unfold MainWindow._start_auto_processing.
  destruct (MainWindow.first_unprocessed _ _ _) as [[i p]|].
  - apply (set_cursor_start_reaches i p (MainWindow.with_auto true w)).
  - apply reaches_refl.
Qed.

Lemma on_complete_reaches (manager : SubtitleManager.t) (w : MainWindow.t) :
  Session.reaches (MainWindow.file_queue w)
    (MainWindow.file_queue (MainWindow._on_complete manager w)).
Proof.
  unfold MainWindow._on_complete. cbn [MainWindow._auto_processing].
  destruct (MainWindow._auto_processing w).
  - eapply reaches_trans; [|apply process_next_unprocessed_reaches].
    apply (reaches_step _
             (FileQueue.SetFileState
                (FileQueue.current_index (MainWindow.file_queue w)) READY)).
  - apply (reaches_step _
             (FileQueue.SetFileState
                (FileQueue.current_index (MainWindow.file_queue w)) READY)).
Qed.

Lemma on_error_reaches (msg : string) (w : MainWindow.t) :
  Session.reaches (MainWindow.file_queue w)
    (MainWindow.file_queue (MainWindow._on_error msg w)).
Proof.
  unfold MainWindow._on_error. cbn [MainWindow._auto_processing].
  destruct (MainWindow._auto_processing w).
  - exact (process_next_unprocessed_reaches _).
  - apply reaches_refl.
Qed.

Lemma add_files_reaches (ps : list string) (w : MainWindow.t) :
  Session.reaches (MainWindow.file_queue w)
    (MainWindow.file_queue (MainWindow.add_files ps w).2).
Proof.
  unfold MainWindow.add_files.
  pose proof (reaches_step (MainWindow.file_queue w) (FileQueue.AddFiles ps))
    as Hadd. cbn [FileQueue.step] in Hadd.
  destruct (FileQueue.add_files (MainWindow.file_queue w) ps) as [added q].
  cbn [snd] in Hadd.
  destruct (0 <? added); [|done].
  pose proof (on_queue_changed_reaches
                (MainWindow._get_file_paths (MainWindow.with_queue q w))
                (MainWindow.with_queue q w)) as Hchanged.
  rewrite with_queue_queue in Hchanged.
  set (w2 := MainWindow._on_queue_changed _ _) in *.
  destruct (FileQueue.count (MainWindow.file_queue w2) =? added);
    [|by eapply reaches_trans].
  pose proof (reaches_step (MainWindow.file_queue w2)
                (FileQueue.SetCurrentIndex 0)) as Hcursor.
  cbn [FileQueue.step] in Hcursor.
  set (w3 := MainWindow.with_queue _ w2).
  assert (Session.reaches (MainWindow.file_queue w) (MainWindow.file_queue w3))
    as H3 by (eapply reaches_trans; [|exact Hcursor]; by eapply reaches_trans).
  destruct (FileQueue.current_file (MainWindow.file_queue w3)); [|done].
  cbn [snd]. eapply reaches_trans; [exact H3|apply on_file_selected_reaches].
Qed.

Lemma remove_file_reaches (i : Z) (w : MainWindow.t) :
  Session.reaches (MainWindow.file_queue w)
    (MainWindow.file_queue (MainWindow.remove_file i w).2).
Proof.
  unfold MainWindow.remove_file.
  pose proof (reaches_step (MainWindow.file_queue w) (FileQueue.RemoveFile i))
    as Hstep. cbn [FileQueue.step] in Hstep.
  destruct (FileQueue.remove_file (MainWindow.file_queue w) i) as [ok q].
  cbn [snd] in Hstep. destruct ok; [|done]. cbn [snd].
  eapply reaches_trans; [exact Hstep|].
  apply (on_queue_changed_reaches _ (MainWindow.with_queue q w)).
Qed.

Lemma move_file_reaches (i j : Z) (w : MainWindow.t) :
  Session.reaches (MainWindow.file_queue w)
    (MainWindow.file_queue (MainWindow.move_file i j w).2).
Proof.
  unfold MainWindow.move_file.
  pose proof (reaches_step (MainWindow.file_queue w) (FileQueue.MoveFile i j))
    as Hstep. cbn [FileQueue.step] in Hstep.
  destruct (FileQueue.move_file (MainWindow.file_queue w) i j) as [ok q].
  cbn [snd] in Hstep. destruct ok; [|done]. cbn [snd].
  eapply reaches_trans; [exact Hstep|].
  apply (on_queue_changed_reaches _ (MainWindow.with_queue q w)).
Qed.

Lemma on_item_clicked_reaches (i : Z) (w : MainWindow.t) :
  Session.reaches (MainWindow.file_queue w)
    (MainWindow.file_queue (MainWindow._on_item_clicked i w)).
Proof.
  unfold MainWindow._on_item_clicked.
  destruct (negb (i =? FileQueue.current_index (MainWindow.file_queue w)));
    [|apply reaches_refl].
  pose proof (reaches_step (MainWindow.file_queue w)
                (FileQueue.SetCurrentIndex i)) as Hstep.
  cbn [FileQueue.step] in Hstep.
  destruct (FileQueue.set_current_index (MainWindow.file_queue w) i)
    as [ok q].
  cbn [snd] in Hstep. destruct ok; [|apply reaches_refl].
  destruct (FileQueue.current_file
              (MainWindow.file_queue (MainWindow.with_queue q w)));
    [|done].
  eapply reaches_trans; [exact Hstep|].
  apply (on_file_selected_reaches _ (MainWindow.with_queue q w)).
Qed.

Lemma drop_event_reaches (i j : Z) (pos : string) (w : MainWindow.t) :
  Session.reaches (MainWindow.file_queue w)
    (MainWindow.file_queue (FileQueueWidget.dropEvent i j pos w)).
Proof.
  unfold FileQueueWidget.dropEvent.
  destruct (_ && _); [apply move_file_reaches|apply reaches_refl].
Qed.

Lemma on_playback_finished_reaches (w : MainWindow.t) :
  -1 <= FileQueue._current_index (MainWindow.file_queue w) ->
  exists w' : MainWindow.t,
    MainWindow._on_playback_finished w = Ok w'
    /\ Session.reaches (MainWindow.file_queue w) (MainWindow.file_queue w').
Proof.
  intros Hci. unfold MainWindow._on_playback_finished.
  set (q1 := (FileQueue.set_file_state _ _ COMPLETED).2).
  assert (Session.reaches (MainWindow.file_queue w) q1) as H1
    by apply (reaches_step _
                (FileQueue.SetFileState
                   (FileQueue.current_index (MainWindow.file_queue w))
                   COMPLETED)).
  assert (-1 <= FileQueue._current_index q1) as Hci1
    by (unfold q1; by rewrite set_file_state_index).
  pose proof (reaches_step q1 FileQueue.GetNextFile) as H2.
  cbn [FileQueue.step] in H2.
  assert (exists o q2, FileQueue.get_next_file q1 = (Ok o, q2)) as (o & q2 & Hget).
  { unfold FileQueue.get_next_file, FileQueue.has_next.
    destruct (_ <? _) eqn:Hnext; [|by eexists _, _].
    unfold py_getitem. cbn [FileQueue._items FileQueue._current_index].
    cbv zeta.
    assert ((FileQueue._current_index q1 + 1 <? 0) = false) as Hnn by lia.
    rewrite !Hnn.
    destruct (FileQueue._items q1 !! Z.to_nat (FileQueue._current_index q1 + 1))
      eqn:Hitem; [by eexists _, _|].
    apply lookup_ge_None in Hitem. unfold len in *. lia. }
  rewrite Hget in *. cbn [snd] in H2.
  assert (Session.reaches (MainWindow.file_queue w) q2) as H12
    by by eapply reaches_trans.
  destruct o as [p|]; [|by eexists].
  destruct (truthy (Some p)); [|by eexists].
  eexists. split; [reflexivity|].
  eapply reaches_trans; [exact H12|].
  apply (start_processing_reaches p (MainWindow.with_queue q2 w)).
Qed.

Lemma session_run_reaches (es : list Session.event) (w : MainWindow.t) :
  Session.reaches FileQueue.new (MainWindow.file_queue w) ->
  exists w' : MainWindow.t,
    Session.run w es = Ok w'
    /\ Session.reaches FileQueue.new (MainWindow.file_queue w').
Proof.
  revert w. induction es as [|e es IH]; intros w Hw; [by exists w|].
  cbn [Session.run].
  assert (exists w1, Session.apply w e = Ok w1
                     /\ Session.reaches (MainWindow.file_queue w)
                          (MainWindow.file_queue w1)) as (w1 & -> & H1).
  { destruct e; cbn [Session.apply];
      try (eexists; split; [reflexivity|]).
    - apply add_files_reaches.
    - apply remove_file_reaches.
    - apply move_file_reaches.
    - apply on_item_clicked_reaches.
    - apply drop_event_reaches.
    - apply on_complete_reaches.
    - apply on_error_reaches.
    - apply on_playback_finished_reaches.
      pose proof (reaches_bounded _ _ Hw new_bounded) as [_ Hci]. lia. }
  apply IH. by eapply reaches_trans.
Qed.

(** X16. Whatever events a new window receives (files added, removed,
    moved, clicked or dropped, runs that complete or fail, playbacks that
    end), no handler raises, the queue is only changed through calls of
    its own interface, and so it always holds at most five items, a cursor
    in [-1 .. len - 1] and at most one item in state [PROCESSING]. *)
Theorem session_keeps_queue_invariants (es : list Session.event) :
  exists w : MainWindow.t,
    Session.run MainWindow.new es = Ok w
    /\ Session.reaches FileQueue.new (MainWindow.file_queue w)
    /\ len (FileQueue._items (MainWindow.file_queue w)) <= 5
    /\ -1 <= FileQueue._current_index (MainWindow.file_queue w)
       <= len (FileQueue._items (MainWindow.file_queue w)) - 1
    /\ (FileQueue.processing_count
          (FileQueue._items (MainWindow.file_queue w)) <= 1)%nat.
Proof.
  destruct (session_run_reaches es MainWindow.new (reaches_refl _))
    as (w & Hrun & Hreach).
  exists w. split; [done|]. split; [done|].
  destruct (reaches_bounded _ _ Hreach new_bounded) as [Hlen Hci].
  split; [exact Hlen|]. split; [exact Hci|].
  apply (reaches_single _ _ Hreach). vm_compute. lia.
Qed.

(** ** The window: which file is processed next *)

Lemma first_unprocessed_found (i : Z) (items : list PlaylistItem)
    (cache : gmap string SubtitleManager.t) (n : nat) (item : PlaylistItem) :
  items !! n = Some item ->
  file_path item ∉ dom cache ->
  (forall (j : nat) (it : PlaylistItem),
     (j < n)%nat -> items !! j = Some it -> file_path it ∈ dom cache) ->
  MainWindow.first_unprocessed i items cache
  = Some (i + Z.of_nat n, file_path item).
Proof.
  revert i n. induction items as [|x items IH]; intros i [|n] Hn Hout Hbefore;
    try done.
  - cbn in Hn. injection Hn as ->. cbn.
    rewrite bool_decide_eq_false_2 by done. by rewrite Z.add_0_r.
  - cbn [MainWindow.first_unprocessed].
    rewrite bool_decide_eq_true_2 by (apply (Hbefore 0%nat); [lia|done]).
    rewrite (IH (i + 1) n); [f_equal; f_equal; lia|done|done|].
    intros j it Hj Hit. apply (Hbefore (S j)); [lia|done].
Qed.

Lemma first_unprocessed_none (i : Z) (items : list PlaylistItem)
    (cache : gmap string SubtitleManager.t) :
  Forall (fun it => file_path it ∈ dom cache) items ->
  MainWindow.first_unprocessed i items cache = None.
Proof.
  intros Hall. revert i. induction Hall as [|x items Hx Hall IH]; intros i;
    [done|].
  cbn. by rewrite bool_decide_eq_true_2.
Qed.

Lemma set_file_state_processing_lookup (q : FileQueue.t) (index : Z)
    (j : nat) (item : PlaylistItem) :
  FileQueue.in_range q index = true ->
  FileQueue._items q !! j = Some item ->
  FileQueue._items (FileQueue.set_file_state q index PROCESSING).2 !! j
  = Some (FileQueue.after_processing index j item).
Proof.
  intros Hin Hj. apply in_range_spec in Hin as Hr.
  unfold FileQueue.set_file_state. rewrite Hin. cbn [negb snd FileQueue._items].
  rewrite bool_decide_eq_true_2 by done.
  unfold FileQueue.after_processing.
  destruct (decide (Z.of_nat j = index)) as [Heq|Hne].
  - replace (Z.to_nat index) with j by lia.
    rewrite list_lookup_alter, lookup_demote_others, Hj. cbn.
    rewrite decide_True by done. rewrite Z.add_0_l.
    assert ((Z.of_nat j =? index) = true) as -> by lia. done.
  - rewrite list_lookup_alter_ne by lia.
    rewrite lookup_demote_others, Hj. cbn. rewrite Z.add_0_l.
    assert ((Z.of_nat j =? index) = false) as -> by lia. cbn.
    case_bool_decide; by destruct (decide (state item = PROCESSING)).
Qed.

(** X17. [_process_next_unprocessed] takes the first item of the queue
    whose path has no cache entry: it puts the cursor on it, sets it to
    [PROCESSING] and starts a worker for its path, keeping the cache and
    the auto mode; when every item has a cache entry it starts nothing and
    only leaves auto mode. *)
Theorem process_next_unprocessed_spec (w : MainWindow.t) :
  (Forall (fun it => file_path it ∈ dom (MainWindow._subtitle_cache w))
     (FileQueue._items (MainWindow.file_queue w)) ->
   MainWindow._process_next_unprocessed w = MainWindow.with_auto false w)
  /\ (forall (n : nat) (item : PlaylistItem),
        FileQueue._items (MainWindow.file_queue w) !! n = Some item ->
        file_path item ∉ dom (MainWindow._subtitle_cache w) ->
        (forall (j : nat) (it : PlaylistItem),
           (j < n)%nat ->
           FileQueue._items (MainWindow.file_queue w) !! j = Some it ->
           file_path it ∈ dom (MainWindow._subtitle_cache w)) ->
        let w' := MainWindow._process_next_unprocessed w in
        MainWindow.started w'
        = (MainWindow.started w ++ [file_path item])%list
        /\ MainWindow._worker w' = Some (file_path item)
        /\ FileQueue._current_index (MainWindow.file_queue w') = Z.of_nat n
        /\ FileQueue._items (MainWindow.file_queue w') !! n
           = Some (set_state PROCESSING item)
        /\ MainWindow._subtitle_cache w' = MainWindow._subtitle_cache w
        /\ MainWindow._auto_processing w' = MainWindow._auto_processing w).
Proof.
  split.
  - intros Hall. unfold MainWindow._process_next_unprocessed, FileQueue.items.
    by rewrite (first_unprocessed_none 0 _ _ Hall).
  - intros n item Hn Hout Hbefore w'. subst w'.
    unfold MainWindow._process_next_unprocessed, FileQueue.items.
    rewrite (first_unprocessed_found 0 _ _ n item Hn Hout Hbefore).
    rewrite Z.add_0_l.
    assert (FileQueue.in_range (MainWindow.file_queue w) (Z.of_nat n) = true)
      as Hin.
    { apply in_range_spec. apply lookup_lt_Some in Hn. unfold len. lia. }
    unfold FileQueue.set_current_index. rewrite Hin. cbn [negb snd].
    unfold MainWindow._start_processing.
    cbn [MainWindow.started MainWindow._worker MainWindow.file_queue
         MainWindow._subtitle_cache MainWindow._auto_processing
         MainWindow.with_queue FileQueue.current_index
         FileQueue._current_index].
    split; [done|]. split; [done|].
    split; [by rewrite set_file_state_index|]. split; [|done].
    rewrite (set_file_state_processing_lookup _ _ n item); [|done|done].
    unfold FileQueue.after_processing. by rewrite decide_True.
Qed.

Lemma process_next_unprocessed_spec_witness :
  let w' := MainWindow._process_next_unprocessed Fixture.half_done in
  MainWindow.started w'
  = (MainWindow.started Fixture.half_done ++ ["/music/b.mp3"])%list
  /\ MainWindow._worker w' = Some "/music/b.mp3"
  /\ FileQueue._current_index (MainWindow.file_queue w') = 1.
Proof.
  destruct (proj2 (process_next_unprocessed_spec Fixture.half_done) 1%nat
              (set_state PROCESSING Sample.B))
    as (Hstarted & Hworker & Hcursor & _).
  - vm_compute. reflexivity.
  - apply (bool_decide_unpack _). vm_compute. exact I.
  - intros [|j] it Hj Hit; [|lia].
    vm_compute in Hit. injection Hit as <-.
    apply (bool_decide_unpack _). vm_compute. exact I.
  - split; [exact Hstarted|]. split; [exact Hworker|exact Hcursor].
Defined.

Lemma demote_others_pending (i index : Z) (l : list PlaylistItem) :
  Forall (fun it => state it = PENDING) l ->
  FileQueue.demote_others i index l = l.
Proof.
  intros Hall. revert i. induction Hall as [|x l Hx Hall IH]; intros i; [done|].
  cbn [FileQueue.demote_others]. rewrite IH.
  rewrite (bool_decide_eq_false_2 (state x = PROCESSING)) by (by rewrite Hx).
  by rewrite andb_false_r.
Qed.

Lemma set_file_state_head (x : PlaylistItem) (l : list PlaylistItem) (ci : Z) :
  Forall (fun it => state it = PENDING) l ->
  FileQueue.set_file_state
    {| FileQueue._items := x :: l; FileQueue._current_index := ci |} 0
    PROCESSING
  = (true, {| FileQueue._items := set_state PROCESSING x :: l;
              FileQueue._current_index := ci |}).
Proof.
  intros Hall. unfold FileQueue.set_file_state.
  assert (FileQueue.in_range
            {| FileQueue._items := x :: l; FileQueue._current_index := ci |} 0
          = true) as ->
    by (apply in_range_spec; unfold len; cbn [FileQueue._items length]; lia).
  cbn [negb FileQueue._items FileQueue._current_index].
  rewrite bool_decide_eq_true_2 by done.
  cbn [FileQueue.demote_others]. rewrite Z.eqb_refl. cbn [negb andb].
  by rewrite demote_others_pending.
Qed.

Lemma start_processing_head (p : string) (x : PlaylistItem)
    (l : list PlaylistItem) (w : MainWindow.t) :
  MainWindow.file_queue w
  = {| FileQueue._items := x :: l; FileQueue._current_index := 0 |} ->
  Forall (fun it => state it = PENDING) l ->
  MainWindow._start_processing p w
  = {| MainWindow.file_queue :=
         {| FileQueue._items := set_state PROCESSING x :: l;
            FileQueue._current_index := 0 |};
       MainWindow._subtitle_cache := MainWindow._subtitle_cache w;
       MainWindow._auto_processing := MainWindow._auto_processing w;
       MainWindow._worker := Some p;
       MainWindow.started := (MainWindow.started w ++ [p])%list;
       MainWindow.subtitles := MainWindow.subtitles w;
       MainWindow.audio_file := MainWindow.audio_file w;
       MainWindow.critical := MainWindow.critical w |}.
Proof.
  intros Hq Hall. unfold MainWindow._start_processing.
  rewrite Hq. unfold FileQueue.current_index. cbn [FileQueue._current_index].
  by rewrite set_file_state_head.
Qed.

Lemma set_current_index_head (x : PlaylistItem) (l : list PlaylistItem)
    (ci : Z) :
  FileQueue.set_current_index
    {| FileQueue._items := x :: l; FileQueue._current_index := ci |} 0
  = (true, {| FileQueue._items := x :: l; FileQueue._current_index := 0 |}).
Proof.
  unfold FileQueue.set_current_index.
  assert (FileQueue.in_range
            {| FileQueue._items := x :: l; FileQueue._current_index := ci |} 0
          = true) as ->
    by (apply in_range_spec; unfold len; cbn [FileQueue._items length]; lia).
  done.
Qed.

(** X18. Adding files to a new window starts two workers for the first
    admitted file: one when [queue_changed] opens auto mode and one when
    [file_selected] is emitted for the first file. Afterwards the cursor
    is on that file, which is in state [PROCESSING], auto mode is on and
    no other worker has been started. *)
Theorem first_add_starts_twice (file_paths : list string) (p : string)
    (rest : list string) :
  Fixture.admitted FileQueue.new file_paths = p :: rest ->
  let r := MainWindow.add_files file_paths MainWindow.new in
  r.1 = 1 + len rest
  /\ MainWindow.started r.2 = [p; p]
  /\ MainWindow._worker r.2 = Some p
  /\ MainWindow._auto_processing r.2 = true
  /\ FileQueue._current_index (MainWindow.file_queue r.2) = 0
  /\ FileQueue._items (MainWindow.file_queue r.2)
     = set_state PROCESSING (Fixture.new_item p) :: map Fixture.new_item rest
  /\ MainWindow._subtitle_cache r.2 = ∅.
Proof.
  intros Hadm r.
  assert (Forall (fun it => state it = PENDING) (map Fixture.new_item rest))
    as Hpending by (apply Forall_fmap, Forall_forall; by intros x _).
  assert (len (p :: rest) = 1 + len rest) as Hlen
    by (unfold len; cbn [length]; lia).
  assert (r = (1 + len rest,
               {| MainWindow.file_queue :=
                    {| FileQueue._items :=
                         set_state PROCESSING (Fixture.new_item p)
                         :: map Fixture.new_item rest;
                       FileQueue._current_index := 0 |};
                  MainWindow._subtitle_cache := ∅;
                  MainWindow._auto_processing := true;
                  MainWindow._worker := Some p;
                  MainWindow.started := [p; p];
                  MainWindow.subtitles := None;
                  MainWindow.audio_file := None;
                  MainWindow.critical := [] |})) as ->; [|by repeat split].
  subst r. unfold MainWindow.add_files.
  change (MainWindow.file_queue MainWindow.new) with FileQueue.new.
  unfold FileQueue.add_files. rewrite add_files_loop_admitted, Hadm.
  rewrite Z.add_0_l, Hlen.
  assert ((0 <? 1 + len rest) = true) as ->
    by (apply Z.ltb_lt; unfold len; lia).
  change (FileQueue._items FileQueue.new ++ map Fixture.new_item (p :: rest))%list
    with (Fixture.new_item p :: map Fixture.new_item rest).
  change (FileQueue._current_index FileQueue.new) with (-1).
  set (q1 := {| FileQueue._items :=
                  Fixture.new_item p :: map Fixture.new_item rest;
                FileQueue._current_index := -1 |}).
  set (w1 := MainWindow.with_queue q1 MainWindow.new).
  (* queue_changed: auto mode opens on the first file *)
  assert (MainWindow._on_queue_changed (MainWindow._get_file_paths w1) w1
          = {| MainWindow.file_queue :=
                 {| FileQueue._items :=
                      set_state PROCESSING (Fixture.new_item p)
                      :: map Fixture.new_item rest;
                    FileQueue._current_index := 0 |};
               MainWindow._subtitle_cache := ∅;
               MainWindow._auto_processing := true;
               MainWindow._worker := Some p;
               MainWindow.started := [p];
               MainWindow.subtitles := None;
               MainWindow.audio_file := None;
               MainWindow.critical := [] |}) as ->.
  { unfold MainWindow._on_queue_changed.
    change (MainWindow._auto_processing w1) with false.
    change (MainWindow._get_file_paths w1)
      with (p :: map file_path (map Fixture.new_item rest)).
    rewrite bool_decide_eq_false_2 by done. cbn [negb andb].
    unfold MainWindow._start_auto_processing.
    change (MainWindow.first_unprocessed 0
              (FileQueue.items (MainWindow.file_queue w1))
              (MainWindow._subtitle_cache w1))
      with (if bool_decide (p ∈ dom (∅ : gmap string SubtitleManager.t))
            then MainWindow.first_unprocessed (0 + 1)
                   (map Fixture.new_item rest) ∅
            else Some (0, p)).
    rewrite bool_decide_eq_false_2 by (rewrite dom_empty_L; set_solver).
    change (MainWindow.file_queue (MainWindow.with_auto true w1)) with q1.
    unfold q1 at 1. rewrite set_current_index_head. cbn [snd].
    by rewrite (start_processing_head p (Fixture.new_item p)
                  (map Fixture.new_item rest)). }
  set (q2 := {| FileQueue._items :=
                  set_state PROCESSING (Fixture.new_item p)
                  :: map Fixture.new_item rest;
                FileQueue._current_index := 0 |}).
  set (w2 := {| MainWindow.file_queue := q2;
                MainWindow._subtitle_cache := ∅;
                MainWindow._auto_processing := true;
                MainWindow._worker := Some p;
                MainWindow.started := [p];
                MainWindow.subtitles := None;
                MainWindow.audio_file := None;
                MainWindow.critical := [] |}).
  assert ((FileQueue.count (MainWindow.file_queue w2) =? 1 + len rest) = true)
    as ->.
  { apply Z.eqb_eq. unfold FileQueue.count, len. cbn. rewrite length_map. lia. }
  change (MainWindow.file_queue w2) with q2.
  unfold q2 at 1. rewrite set_current_index_head. cbn [snd]. fold q2.
  change (MainWindow.with_queue q2 w2) with w2.
  assert (FileQueue.current_file (MainWindow.file_queue w2) = Some p) as ->.
  { unfold FileQueue.current_file.
    assert (FileQueue.in_range (MainWindow.file_queue w2)
              (FileQueue._current_index (MainWindow.file_queue w2)) = true)
      as -> by (apply in_range_spec; unfold len; cbn; lia).
    done. }
  f_equal.
  unfold MainWindow._on_file_selected.
  change (MainWindow._subtitle_cache w2) with (∅ : gmap string SubtitleManager.t).
  rewrite bool_decide_eq_false_2 by (apply not_elem_of_dom, lookup_empty).
  by rewrite (start_processing_head p
                (set_state PROCESSING (Fixture.new_item p))
                (map Fixture.new_item rest)).
Qed.

Lemma first_add_starts_twice_witness :
  let r := MainWindow.add_files ["/music/a.wav"; "/music/b.mp3"]
             MainWindow.new in
  r.1 = 1 + len ["/music/b.mp3"]
  /\ MainWindow.started r.2 = ["/music/a.wav"; "/music/a.wav"]
  /\ MainWindow._worker r.2 = Some "/music/a.wav"
  /\ MainWindow._auto_processing r.2 = true
  /\ FileQueue._current_index (MainWindow.file_queue r.2) = 0
  /\ FileQueue._items (MainWindow.file_queue r.2)
     = set_state PROCESSING (Fixture.new_item "/music/a.wav")
       :: map Fixture.new_item ["/music/b.mp3"]
  /\ MainWindow._subtitle_cache r.2 = ∅.
Proof.
  apply (first_add_starts_twice ["/music/a.wav"; "/music/b.mp3"]
           "/music/a.wav" ["/music/b.mp3"]).
  vm_compute. reflexivity.
Defined.

(** ** Dropping a dragged item *)

Lemma start_processing_paths (p : string) (w : MainWindow.t) :
  map file_path (FileQueue._items
                   (MainWindow.file_queue (MainWindow._start_processing p w)))
  = map file_path (FileQueue._items (MainWindow.file_queue w)).
Proof. apply set_file_state_paths. Qed.

Lemma set_current_index_items (q : FileQueue.t) (i : Z) :
  FileQueue._items (FileQueue.set_current_index q i).2 = FileQueue._items q.
Proof.
  unfold FileQueue.set_current_index. by destruct (FileQueue.in_range q i).
Qed.

Lemma on_queue_changed_paths (ps : list string) (w : MainWindow.t) :
  map file_path (FileQueue._items
                   (MainWindow.file_queue (MainWindow._on_queue_changed ps w)))
  = map file_path (FileQueue._items (MainWindow.file_queue w)).
Proof.
  unfold MainWindow._on_queue_changed.
  destruct (negb (MainWindow._auto_processing w)
            && negb (bool_decide (ps = []))); [|done].
  unfold MainWindow._start_auto_processing.
  destruct (MainWindow.first_unprocessed _ _ _) as [[i p]|]; [|done].
  rewrite start_processing_paths. cbn [MainWindow.with_queue MainWindow.file_queue].
  by rewrite set_current_index_items.
Qed.

Lemma drop_beside {A : Type} (l : list A) (src dti : nat) (right : bool)
    (x : A) :
  l !! src = Some x -> (dti < length l)%nat -> src <> dti ->
  let target := (dti + (if right then 1 else 0))%nat in
  let k := (if decide (src < target)%nat then target - 1 else target)%nat in
  let l' := if decide (k = src) then l else py_insert k x (delete src l) in
  (k < length l)%nat
  /\ l' !! k = Some x
  /\ (right = false -> l' !! S k = l !! dti)
  /\ (right = true -> (1 <= k)%nat /\ l' !! (k - 1)%nat = l !! dti).
Proof.
  intros Hx Hdti Hne target k l'.
  pose proof (lookup_lt_Some _ _ _ Hx) as Hsrc.
  assert (length (delete src l) = (length l - 1)%nat) as Hlen
    by (apply length_delete; eauto).
  subst l' k target.
  destruct right; repeat case_decide; try lia;
    repeat split; intros; try done; try lia;
    rewrite ?lookup_py_insert by lia;
    repeat case_decide; try lia; try done;
    first [ rewrite <- Hx; f_equal; lia
          | rewrite list_lookup_delete_ge by lia; f_equal; lia
          | rewrite list_lookup_delete_lt by lia; f_equal; lia
          | f_equal; lia ].
Qed.

Lemma calculate_drop_index_nat (src dti : nat) (pos : string) :
  FileQueueWidget._calculate_drop_index (Z.of_nat dti) pos (Z.of_nat src)
  = Z.of_nat
      (let target := (dti + (if bool_decide (pos = "right") then 1 else 0))%nat in
       if decide (src < target)%nat then target - 1 else target)%nat.
Proof.
  unfold FileQueueWidget._calculate_drop_index.
  assert ((Z.of_nat dti =? -1) = false) as -> by (apply Z.eqb_neq; lia).
  cbv zeta. destruct (bool_decide (pos = "right")); case_decide;
    repeat case_match; lia.
Qed.

Lemma drop_event_items (w : MainWindow.t) (src dti : nat) (pos : string)
    (x : PlaylistItem) :
  FileQueue._items (MainWindow.file_queue w) !! src = Some x ->
  (dti < length (FileQueue._items (MainWindow.file_queue w)))%nat ->
  src <> dti ->
  let k := Z.to_nat (FileQueueWidget._calculate_drop_index (Z.of_nat dti) pos
                       (Z.of_nat src)) in
  map file_path
    (FileQueue._items
       (MainWindow.file_queue
          (FileQueueWidget.dropEvent (Z.of_nat src) (Z.of_nat dti) pos w)))
  = map file_path
      (if decide (k = src) then FileQueue._items (MainWindow.file_queue w)
       else py_insert k x (delete src (FileQueue._items (MainWindow.file_queue w)))).
Proof.
  intros Hx Hdti Hne k.
  pose proof (lookup_lt_Some _ _ _ Hx) as Hsrc.
  destruct (drop_beside _ src dti (bool_decide (pos = "right")) x Hx Hdti Hne)
    as (Hk & _).
  unfold FileQueueWidget.dropEvent. subst k.
  rewrite calculate_drop_index_nat in *. rewrite Nat2Z.id.
  set (k := (let target := _ in if decide (src < target)%nat then _ else _)) in *.
  case_decide as Hks.
  - by assert ((Z.of_nat k =? Z.of_nat src) = true) as -> by lia.
  - assert ((Z.of_nat k =? Z.of_nat src) = false) as -> by lia.
    assert ((Z.of_nat k =? -1) = false) as -> by lia. cbn [negb andb].
    unfold MainWindow.move_file.
    assert (FileQueue.move_file (MainWindow.file_queue w) (Z.of_nat src)
              (Z.of_nat k)
            = (true,
               {| FileQueue._items :=
                    py_insert k x
                      (delete src (FileQueue._items (MainWindow.file_queue w)));
                  FileQueue._current_index :=
                    FileQueue.moved_index (Z.of_nat src) (Z.of_nat k)
                      (FileQueue._current_index (MainWindow.file_queue w)) |}))
      as ->.
    { unfold FileQueue.move_file.
      assert (FileQueue.in_range (MainWindow.file_queue w) (Z.of_nat src) = true)
        as -> by (apply in_range_spec; unfold len; lia).
      assert (FileQueue.in_range (MainWindow.file_queue w) (Z.of_nat k) = true)
        as -> by (apply in_range_spec; unfold len; lia).
      assert ((Z.of_nat src =? Z.of_nat k) = false) as -> by lia.
      cbn [negb]. rewrite !Nat2Z.id, Hx. by rewrite moved_index_code. }
    cbn [snd]. by rewrite on_queue_changed_paths.
Qed.

(** X19. Dropping a dragged queue item on another item puts it right
    beside that item: just before it when the pointer is on the left half
    of the target, just after it when it is on the right half. The other
    files keep their order, and dropping an item that is already in that
    place changes no path. The computed position is always a position of
    the queue. *)
Theorem drop_places_beside_target (w : MainWindow.t)
    (source_index target_index : Z) (pos : string) :
  FileQueue.in_range (MainWindow.file_queue w) source_index = true ->
  FileQueue.in_range (MainWindow.file_queue w) target_index = true ->
  source_index <> target_index ->
  let paths := map file_path (FileQueue._items (MainWindow.file_queue w)) in
  let paths' :=
    map file_path
      (FileQueue._items
         (MainWindow.file_queue
            (FileQueueWidget.dropEvent source_index target_index pos w))) in
  let k := FileQueueWidget._calculate_drop_index target_index pos
             source_index in
  0 <= k < len paths
  /\ paths' !! Z.to_nat k = paths !! Z.to_nat source_index
  /\ (pos <> "right" ->
      paths' !! Z.to_nat (k + 1) = paths !! Z.to_nat target_index)
  /\ (pos = "right" ->
      1 <= k /\ paths' !! Z.to_nat (k - 1) = paths !! Z.to_nat target_index)
  /\ delete (Z.to_nat k) paths' = delete (Z.to_nat source_index) paths
  /\ (k = source_index -> paths' = paths).
Proof.
  intros Hsrc Hdti Hne paths paths' k.
  pose proof (in_range_lt _ _ Hsrc) as Hsrc_lt.
  pose proof (in_range_lt _ _ Hdti) as Hdti_lt.
  apply in_range_spec in Hsrc, Hdti.
  destruct (FileQueue._items (MainWindow.file_queue w) !! Z.to_nat source_index)
    as [x|] eqn:Hx.
  2:{ apply lookup_ge_None in Hx. lia. }
  assert (Z.to_nat source_index <> Z.to_nat target_index) as Hne' by lia.
  pose proof (drop_event_items w (Z.to_nat source_index)
                (Z.to_nat target_index) pos x Hx Hdti_lt Hne') as Hitems.
  destruct (drop_beside _ (Z.to_nat source_index) (Z.to_nat target_index)
              (bool_decide (pos = "right")) x Hx Hdti_lt Hne')
    as (Hk & Hat & Hleft & Hright).
  pose proof (calculate_drop_index_nat (Z.to_nat source_index)
                (Z.to_nat target_index) pos) as Hcalc.
  rewrite !Z2Nat.id in Hitems, Hcalc by lia.
  cbv zeta in Hitems. fold k in Hitems, Hcalc.
  set (kn := (let target := _ in
              if decide (Z.to_nat source_index < target)%nat then _ else _))
    in *.
  assert (Z.to_nat k = kn) as Hkn by lia.
  rewrite Hkn in Hitems.
  subst paths paths'. rewrite Hitems. unfold len. rewrite length_map.
  split; [lia|].
  rewrite !list_lookup_fmap, Hkn.
  split; [by rewrite Hat, Hx|]. split.
  - intros Hpos. replace (Z.to_nat (k + 1)) with (S kn) by lia.
    rewrite Hleft; [done|]. by apply bool_decide_eq_false_2.
  - split; [|split].
    + intros Hpos. destruct Hright as [H1 Hlook];
        [by apply bool_decide_eq_true_2|].
      split; [lia|]. replace (Z.to_nat (k - 1)) with (kn - 1)%nat by lia.
      by rewrite Hlook.
    + rewrite <- !list_fmap_delete. f_equal.
      destruct (decide (kn = Z.to_nat source_index)) as [->|_]; [done|].
      apply delete_py_insert. rewrite length_delete by (by rewrite Hx). lia.
    + intros Hsame.
      by rewrite decide_True by lia.
Qed.

Lemma drop_places_beside_target_witness :
  let w := MainWindow.with_queue Sample.abc MainWindow.new in
  let paths' :=
    map file_path
      (FileQueue._items
         (MainWindow.file_queue (FileQueueWidget.dropEvent 0 2 "left" w))) in
  let k := FileQueueWidget._calculate_drop_index 2 "left" 0 in
  0 <= k < 3
  /\ paths' !! Z.to_nat k = Some "/music/a.wav"
  /\ ("left" <> "right" -> paths' !! Z.to_nat (k + 1) = Some "/music/c.WAV").
Proof.
  intros w paths' k.
  destruct (drop_places_beside_target w 0 2 "left")
    as (Hk & Hat & Hleft & _).
  - reflexivity.
  - reflexivity.
  - discriminate.
  - split; [exact Hk|]. split; [exact Hat|exact Hleft].
Defined.

(** ** The dictionary of a translation result *)

Lemma segment_from_to_dict (seg : TranslationResult.segment) :
  TranslationResult.segment_from_dict (TranslationResult.segment_to_dict seg)
  = Ok seg.
Proof. by destruct seg. Qed.

Lemma segments_from_to_dict (l : list TranslationResult.segment) :
  mapM TranslationResult.segment_from_dict
    (map TranslationResult.segment_to_dict l) = Ok l.
Proof.
  induction l as [|seg l IH]; [done|].
  cbn [map mapM]. rewrite segment_from_to_dict, IH. done.
Qed.

(** X20. [TranslationResult.from_dict] reads back what [to_dict] wrote:
    the result, its segments in order and every field of each are the
    values that were written, whatever their types. On a dictionary
    without the [segments] key it raises [KeyError] for that key. It
    checks no value: when it returns, the four plain fields of the result
    are the values the dictionary holds under their keys. *)
Theorem translation_result_round_trip :
  (forall r : TranslationResult.t,
     TranslationResult.from_dict (TranslationResult.to_dict r) = Ok r)
  /\ (forall d : list (string * pyval),
        TranslationResult.entry d "segments" = None ->
        TranslationResult.from_dict (PDict d) = Raise (KeyError "segments"))
  /\ (forall (data : pyval) (r : TranslationResult.t),
        TranslationResult.from_dict data = Ok r ->
        TranslationResult.getitem data "audio_file"
        = Ok (TranslationResult.audio_file r)
        /\ TranslationResult.getitem data "source_language"
           = Ok (TranslationResult.source_language r)
        /\ TranslationResult.getitem data "target_language"
           = Ok (TranslationResult.target_language r)
        /\ TranslationResult.getitem data "created_at"
           = Ok (TranslationResult.created_at r)).
Proof.
  split; [|split].
  - intros [audio source target segs created].
    unfold TranslationResult.to_dict, TranslationResult.from_dict.
    cbn [TranslationResult.audio_file TranslationResult.source_language
         TranslationResult.target_language TranslationResult.segments
         TranslationResult.created_at].
    change (TranslationResult.getitem _ "segments")
      with (Ok (PList (map TranslationResult.segment_to_dict segs))).
    cbn [mbind result_bind TranslationResult.iterate].
    by rewrite segments_from_to_dict.
  - intros d Hd. unfold TranslationResult.from_dict.
    cbn [TranslationResult.getitem]. by rewrite Hd.
  - intros data r Hr. unfold TranslationResult.from_dict in Hr.
    destruct (TranslationResult.getitem data "segments") as [listed|];
      [|done].
    cbn [mbind result_bind] in Hr.
    destruct (TranslationResult.iterate listed) as [items|]; [|done].
    cbn [mbind result_bind] in Hr.
    destruct (mapM TranslationResult.segment_from_dict items) as [segs|];
      [|done].
    cbn [mbind result_bind] in Hr.
    destruct (TranslationResult.getitem data "audio_file"); [|done].
    cbn [mbind result_bind] in Hr.
    destruct (TranslationResult.getitem data "source_language"); [|done].
    cbn [mbind result_bind] in Hr.
    destruct (TranslationResult.getitem data "target_language"); [|done].
    cbn [mbind result_bind] in Hr.
    destruct (TranslationResult.getitem data "created_at"); [|done].
    cbn [mbind result_bind] in Hr. by injection Hr as <-.
Qed.

Lemma translation_result_round_trip_witness :
  TranslationResult.from_dict
    (PDict [("audio_file", PStr "/music/a.wav")])
  = Raise (KeyError "segments")
  /\ TranslationResult.getitem
       (PDict [("segments", PDict []); ("audio_file", PInt 7);
               ("source_language", PNone); ("target_language", PNone);
               ("created_at", PNone)]) "audio_file"
     = Ok (PInt 7).
Proof.
  split.
  - apply (proj1 (proj2 translation_result_round_trip)). reflexivity.
  - pose proof (proj2 (proj2 translation_result_round_trip)
                  (PDict [("segments", PDict []); ("audio_file", PInt 7);
                          ("source_language", PNone);
                          ("target_language", PNone);
                          ("created_at", PNone)])
                  {| TranslationResult.audio_file := PInt 7;
                     TranslationResult.source_language := PNone;
                     TranslationResult.target_language := PNone;
                     TranslationResult.segments := [];
                     TranslationResult.created_at := PNone |}
                  eq_refl) as H.
    exact (proj1 H).
Defined.

(** ** Auto processing advances with every finished run *)

Lemma current_file_paths (q : FileQueue.t) :
  FileQueue.current_file q
  = if FileQueue.in_range q (FileQueue._current_index q)
    then map file_path (FileQueue._items q)
           !! Z.to_nat (FileQueue._current_index q)
    else None.
Proof.
  unfold FileQueue.current_file.
  destruct (FileQueue.in_range _ _); [|done]. by rewrite list_lookup_fmap.
Qed.

Lemma current_file_same_paths (q q' : FileQueue.t) :
  map file_path (FileQueue._items q) = map file_path (FileQueue._items q') ->
  FileQueue._current_index q = FileQueue._current_index q' ->
  FileQueue.current_file q = FileQueue.current_file q'.
Proof.
  intros Hp Hi. rewrite !current_file_paths, Hp, Hi.
  unfold FileQueue.in_range, len.
  by rewrite <- (length_map file_path (FileQueue._items q)), Hp, length_map.
Qed.

Lemma first_unprocessed_paths (i : Z) (items : list PlaylistItem)
    (cache : gmap string SubtitleManager.t) :
  match MainWindow.first_unprocessed i items cache with
  | Some (j, path) =>
      i <= j < i + len items
      /\ map file_path items !! Z.to_nat (j - i) = Some path
      /\ head (filter (fun p => p ∉ dom cache) (map file_path items))
         = Some path
  | None => filter (fun p => p ∉ dom cache) (map file_path items) = []
  end.
Proof.
  revert i. induction items as [|x items IH]; intros i; [done|].
  cbn [MainWindow.first_unprocessed map]. rewrite filter_cons.
  case_bool_decide as Hin.
  - rewrite decide_False by (intros Hn; by apply Hn).
    specialize (IH (i + 1)).
    destruct (MainWindow.first_unprocessed (i + 1) items cache) as [[j path]|];
      [|done].
    destruct IH as (Hj & Hlook & Hhead). unfold len in *. cbn [length].
    split; [lia|]. split; [|done].
    replace (Z.to_nat (j - i)) with (S (Z.to_nat (j - (i + 1)))) by lia.
    done.
  - rewrite decide_True by done. unfold len. cbn [length].
    split; [lia|]. split; [|done]. by rewrite Z.sub_diag.
Qed.

Lemma filter_insert_cache (p : string) (m : SubtitleManager.t)
    (cache : gmap string SubtitleManager.t) (l : list string) :
  filter (fun x => x ∉ dom (<[p := m]> cache)) l
  = filter (fun x => x <> p) (filter (fun x => x ∉ dom cache) l).
Proof.
  induction l as [|x l IH]; [done|].
  rewrite !filter_cons, IH, dom_insert_L.
  destruct (decide (x = p)) as [->|Hne].
  - rewrite decide_False by set_solver.
    destruct (decide (p ∉ dom cache)); [|done].
    by rewrite filter_cons, decide_False by (intros Hn; by apply Hn).
  - destruct (decide (x ∉ dom cache)).
    + rewrite decide_True
        by (rewrite not_elem_of_union, not_elem_of_singleton; done).
      by rewrite filter_cons, decide_True by done.
    + by rewrite decide_False by set_solver.
Qed.

Lemma filter_ne_shorter (p : string) (l : list string) :
  p ∈ l -> (length (filter (fun x => x <> p) l) < length l)%nat.
Proof.
  induction l as [|x l IH]; intros Hin; [by apply elem_of_nil in Hin|].
  rewrite filter_cons. cbn [length].
  destruct (decide (x <> p)) as [Hne|Heq].
  - cbn [length]. apply elem_of_cons in Hin as [->|Hin]; [done|].
    specialize (IH Hin). lia.
  - pose proof (length_filter (fun x => x <> p) l). lia.
Qed.

Lemma process_next_unprocessed_paths (w : MainWindow.t) :
  MainWindow._get_file_paths (MainWindow._process_next_unprocessed w)
  = MainWindow._get_file_paths w.
Proof.
  unfold MainWindow._process_next_unprocessed, MainWindow._get_file_paths,
    FileQueue.items.
  destruct (MainWindow.first_unprocessed _ _ _) as [[i p]|]; [|done].
  rewrite start_processing_paths. cbn [MainWindow.file_queue MainWindow.with_queue].
  by rewrite set_current_index_items.
Qed.

(** X21. A run that finishes with the cursor on a file that has no cache
    entry yet stores its subtitles under that file and takes exactly that
    path out of the files still to process, so their number goes down.
    In auto mode the window then starts the first file still to process
    and puts the cursor on it, and leaves auto mode, starting nothing,
    exactly when none is left. *)
Theorem on_complete_advances (manager : SubtitleManager.t)
    (w : MainWindow.t) (p : string) :
  FileQueue.current_file (MainWindow.file_queue w) = Some p ->
  p <> "" ->
  p ∉ dom (MainWindow._subtitle_cache w) ->
  let w' := MainWindow._on_complete manager w in
  MainWindow._subtitle_cache w' = <[p := manager]> (MainWindow._subtitle_cache w)
  /\ Fixture.unprocessed w'
     = filter (fun x => x <> p) (Fixture.unprocessed w)
  /\ (length (Fixture.unprocessed w') < length (Fixture.unprocessed w))%nat
  /\ (MainWindow._auto_processing w = true ->
      match Fixture.unprocessed w' with
      | [] => MainWindow._auto_processing w' = false
              /\ MainWindow.started w' = MainWindow.started w
      | next :: _ =>
          MainWindow._auto_processing w' = true
          /\ MainWindow.started w' = (MainWindow.started w ++ [next])%list
          /\ FileQueue.current_file (MainWindow.file_queue w') = Some next
      end).
Proof.
  intros Hcur Hne Hout w'.
  set (q := (FileQueue.set_file_state (MainWindow.file_queue w)
               (FileQueue.current_index (MainWindow.file_queue w)) READY).2).
  set (w1 := {| MainWindow.file_queue := q;
                MainWindow._subtitle_cache
                  := <[p := manager]> (MainWindow._subtitle_cache w);
                MainWindow._auto_processing := MainWindow._auto_processing w;
                MainWindow._worker := MainWindow._worker w;
                MainWindow.started := MainWindow.started w;
                MainWindow.subtitles := Some manager;
                MainWindow.audio_file := Some p;
                MainWindow.critical := MainWindow.critical w |}).
  assert (w' = if MainWindow._auto_processing w
               then MainWindow._process_next_unprocessed w1 else w1) as Hw'.
  { subst w' w1 q. unfold MainWindow._on_complete. rewrite Hcur.
    assert (truthy (Some p) = true) as -> by (by destruct p). done. }
  assert (MainWindow._get_file_paths w1 = MainWindow._get_file_paths w)
    as Hpaths1.
  { unfold MainWindow._get_file_paths, FileQueue.items. subst w1 q.
    cbn [MainWindow.file_queue]. apply set_file_state_paths. }
  assert (MainWindow._subtitle_cache w'
          = <[p := manager]> (MainWindow._subtitle_cache w)) as Hcache.
  { rewrite Hw'. destruct (MainWindow._auto_processing w); [|done].
    by rewrite process_next_unprocessed_cache. }
  assert (MainWindow._get_file_paths w' = MainWindow._get_file_paths w)
    as Hpaths.
  { rewrite Hw'. destruct (MainWindow._auto_processing w); [|done].
    by rewrite process_next_unprocessed_paths. }
  assert (Fixture.unprocessed w'
          = filter (fun x => x <> p) (Fixture.unprocessed w)) as Hun.
  { unfold Fixture.unprocessed. rewrite Hcache, Hpaths.
    apply filter_insert_cache. }
  split; [done|]. split; [done|]. split.
  - rewrite Hun. apply filter_ne_shorter. unfold Fixture.unprocessed.
    apply list_elem_of_filter. split; [done|].
    rewrite current_file_paths in Hcur.
    destruct (FileQueue.in_range _ _); [|done].
    by apply list_elem_of_lookup_2 in Hcur.
  - intros Hauto. rewrite Hauto in Hw'.
    assert (Fixture.unprocessed w'
            = filter (fun x => x ∉ dom (MainWindow._subtitle_cache w1))
                (map file_path (FileQueue._items (MainWindow.file_queue w1))))
      as ->.
    { unfold Fixture.unprocessed. rewrite Hcache, Hpaths, <- Hpaths1. done. }
    rewrite Hw'. unfold MainWindow._process_next_unprocessed, FileQueue.items.
    pose proof (first_unprocessed_paths 0
                  (FileQueue._items (MainWindow.file_queue w1))
                  (MainWindow._subtitle_cache w1)) as Hfirst.
    destruct (MainWindow.first_unprocessed _ _ _) as [[j path]|].
    + destruct Hfirst as (Hj & Hlook & Hhead).
      clear Hun. destruct (filter _ (map file_path _)) as [|next rest];
        [discriminate Hhead|].
      injection Hhead as ->.
      split; [done|]. split; [done|].
      assert (FileQueue.in_range (MainWindow.file_queue w1) j = true) as Hin
        by (apply in_range_spec; lia).
      rewrite (current_file_same_paths _
                 {| FileQueue._items
                      := FileQueue._items (MainWindow.file_queue w1);
                    FileQueue._current_index := j |}).
      * rewrite current_file_paths. cbn [FileQueue._current_index].
        change (FileQueue.in_range _ j)
          with (FileQueue.in_range (MainWindow.file_queue w1) j).
        rewrite Hin. cbn [FileQueue._items].
        by rewrite Z.sub_0_r in Hlook.
      * rewrite start_processing_paths.
        cbn [MainWindow.file_queue MainWindow.with_queue].
        by rewrite set_current_index_items.
      * unfold MainWindow._start_processing. cbn [MainWindow.file_queue].
        rewrite set_file_state_index.
        cbn [MainWindow.file_queue MainWindow.with_queue].
        unfold FileQueue.set_current_index. by rewrite Hin.
    + rewrite Hfirst. done.
Qed.

Lemma on_complete_advances_witness :
  Fixture.unprocessed
    (MainWindow._on_complete Sample.manager_b Fixture.half_done) = [].
Proof.
  pose proof (on_complete_advances Sample.manager_b Fixture.half_done
                "/music/b.mp3") as H.
  cbv zeta in H.
  destruct H as (_ & Hun & _); [vm_compute; reflexivity|discriminate| |].
  - apply (bool_decide_unpack _). vm_compute. exact I.
  - rewrite Hun. vm_compute. reflexivity.
Defined.
